(** * health-auto-export-server: ingestion pipeline

    A shallow embedding of the server's ingestion path:
    - [utils.ts]            ([parseDate], [isValidDate]),
    - [models/Workout.ts]   ([mapWorkoutData], [mapRoute], [routeSchema]),
    - [controllers/metrics.ts]  ([saveMetrics]),
    - [controllers/ingester.ts] ([ingestData]),
    followed by the properties the specification states about them.

    A JavaScript number is NaN, one of the two infinities, or a finite
    number given by its exact value; what the code computes on numbers
    is rounded to binary64, and a zero keeps no sign.  A [Date] is its
    time value: an integer number of milliseconds, or NaN. *)

From Stdlib Require Import ZArith QArith Qround Qabs String Ascii List Lia Lqa.
From stdpp Require Import gmap strings list fin_maps functions pretty.

Local Open Scope Z_scope.

(* ===================================================================== *)
(** ** The JavaScript runtime, as far as the code relies on it           *)
(* ===================================================================== *)

Module JS.

(** A value of type [number]. *)
Inductive number :=
| NaN
| Infinity (negative : bool)
| Finite (q : Q).

Definition isNaN (n : number) : bool :=
  match n with NaN => true | _ => false end.

(** ToBoolean on a number: [0], [-0] and [NaN] are falsy. *)
Definition number_truthy (n : number) : bool :=
  match n with
  | NaN => false
  | Infinity _ => true
  | Finite q => negb (Qeq_bool q 0)
  end.

(** *** binary64 *)

(** [⌊log2 q⌋] for a positive [q]. *)
Definition ilog2 (q : Q) : Z :=
  let k := Z.log2 (Qnum q) - Z.log2 (Z.pos (Qden q)) in
  if Qle_bool (Qpower 2 k) q then k else k - 1.

(** The nearest integer, a tie going to the even one. *)
Definition roundEven (q : Q) : Z :=
  let f := Qfloor q in
  match Qcompare (q - inject_Z f) (1 # 2) with
  | Lt => f
  | Gt => f + 1
  | Eq => if Z.even f then f else f + 1
  end.

(** The binary64 number nearest to [q], a tie going to the even
    significand: 53 bits down to the exponent -1074, and an infinity
    from 2^1024 on.  A [q] that is a binary64 number (as the integers up
    to 2^53 are) is returned as it is. *)
Definition round64 (q : Q) : number :=
  if (Z.pos (Qden q) =? 1) && (Z.abs (Qnum q) <=? 2 ^ 53) then Finite q
  else
    let a := Qabs q in
    if Qeq_bool a 0 then Finite q
    else
      let e := Z.max (ilog2 a - 52) (-1074) in
      let r := (inject_Z (roundEven (a / Qpower 2 e)) * Qpower 2 e)%Q in
      if Qle_bool (Qpower 2 1024) r then Infinity (negb (Qle_bool 0 q))
      else if Qeq_bool r a then Finite q
      else Finite (if Qle_bool 0 q then r else (- r)%Q).

Definition rounded (n : number) : number :=
  match n with
  | Finite q => round64 q
  | _ => n
  end.

(** *** [Number(string)]: the StringToNumber grammar *)

(** Strings are sequences of bytes here, and white space is the ASCII
    part of StrWhiteSpaceChar (TAB, LF, VT, FF, CR, SP). *)

Definition isWhiteSpace (c : ascii) : bool :=
  let n := nat_of_ascii c in
  ((9 <=? n) && (n <=? 13))%nat || (n =? 32)%nat.

Fixpoint trimStart (l : list ascii) : list ascii :=
  match l with
  | c :: l' => if isWhiteSpace c then trimStart l' else l
  | [] => []
  end.

Definition trim (l : list ascii) : list ascii :=
  rev (trimStart (rev (trimStart l))).

(** Value of a digit in a radix up to 16. *)
Definition digitVal (c : ascii) : option Z :=
  let n := Z.of_nat (nat_of_ascii c) in
  if (48 <=? n) && (n <=? 57) then Some (n - 48)
  else if (97 <=? n) && (n <=? 102) then Some (n - 87)
  else if (65 <=? n) && (n <=? 70) then Some (n - 55)
  else None.

Definition digitIn (radix : Z) (c : ascii) : option Z :=
  match digitVal c with
  | Some d => if d <? radix then Some d else None
  | None => None
  end.

(** The longest run of digits at the head of [l]: its value, its length
    and what follows. *)
Fixpoint digits (radix acc : Z) (n : nat) (l : list ascii)
  : Z * nat * list ascii :=
  match l with
  | c :: l' =>
      match digitIn radix c with
      | Some d => digits radix (radix * acc + d) (S n) l'
      | None => (acc, n, l)
      end
  | [] => (acc, n, [])
  end.

Definition isChar (a b : ascii) : bool := Ascii.eqb a b.

(** ExponentPart, or nothing, up to the end of the literal. *)
Definition exponent (l : list ascii) : option Z :=
  match l with
  | [] => Some 0
  | c :: l' =>
      if isChar c "e" || isChar c "E" then
        let '(neg, l'') :=
          match l' with
          | s :: r => if isChar s "-" then (true, r)
                      else if isChar s "+" then (false, r) else (false, l')
          | [] => (false, l')
          end in
        match digits 10 0 0 l'' with
        | (e, S _, []) => Some (if neg then - e else e)
        | _ => None
        end
      else None
  end.

Definition scale (m : Q) (e : Z) : Q := (m * Qpower (10 # 1) e)%Q.

(** StrUnsignedDecimalLiteral. *)
Definition unsignedDecimal (l : list ascii) : option number :=
  if decide (l = list_ascii_of_string "Infinity") then Some (Infinity false)
  else
    let '(ip, ni, r1) := digits 10 0 0 l in
    match r1 with
    | c :: r1' =>
        if isChar c "." then
          let '(fp, nf, r2) := digits 10 0 0 r1' in
          match (ni + nf)%nat, exponent r2 with
          | S _, Some e =>
              Some (Finite (scale (inject_Z ip + inject_Z fp / inject_Z (10 ^ Z.of_nat nf))%Q e))
          | _, _ => None
          end
        else
          match ni, exponent r1 with
          | S _, Some e => Some (Finite (scale (inject_Z ip) e))
          | _, _ => None
          end
    | [] =>
        match ni with
        | S _ => Some (Finite (inject_Z ip))
        | O => None
        end
    end.

Definition negate (n : number) : number :=
  match n with
  | NaN => NaN
  | Infinity b => Infinity (negb b)
  | Finite q => Finite (- q)%Q
  end.

(** NonDecimalIntegerLiteral: [0x], [0o] and [0b] prefixes. *)
Definition nonDecimal (l : list ascii) : option (option number) :=
  match l with
  | z :: p :: r =>
      if isChar z "0" then
        let radix :=
          if isChar p "x" || isChar p "X" then Some 16
          else if isChar p "o" || isChar p "O" then Some 8
          else if isChar p "b" || isChar p "B" then Some 2
          else None in
        match radix with
        | Some rx =>
            Some match digits rx 0 0 r with
                 | (v, S _, []) => Some (Finite (inject_Z v))
                 | _ => None
                 end
        | None => None
        end
      else None
  | _ => None
  end.

(** The mathematical value of the literal, before rounding. *)
Definition literalValue (s : string) : number :=
  match trim (list_ascii_of_string s) with
  | [] => Finite 0
  | (c :: r) as l =>
      match nonDecimal l with
      | Some v => default NaN v
      | None =>
          default NaN
            (if isChar c "-" then negate <$> unsignedDecimal r
             else if isChar c "+" then unsignedDecimal r
             else unsignedDecimal l)
      end
  end.

Definition StringToNumber (s : string) : number := rounded (literalValue s).

(** *** [Date] *)

(** A Date object is its time value; [None] is NaN ("Invalid Date"). *)
Record Date := mkDate { getTime : option Z }.

Definition InvalidDate : Date := mkDate None.
Definition DateOf (t : Z) : Date := mkDate (Some t).

Definition maxTime : Z := 8640000000000000.

(** ToIntegerOrInfinity on a finite number: rounding towards zero. *)
Definition truncate (q : Q) : Z := Z.quot (Qnum q) (Z.pos (Qden q)).

(** TimeClip after ToNumber: [new Date(n)] for a number [n]. *)
Definition TimeClip (n : number) : Date :=
  match n with
  | Finite q =>
      let t := truncate q in
      if Qle_bool (Qabs q) (inject_Z maxTime) then DateOf t else InvalidDate
  | _ => InvalidDate
  end.

Definition daysFromCivil (y m d : Z) : Z :=
  let y' := if m <=? 2 then y - 1 else y in
  let era := y' / 400 in
  let yoe := y' - era * 400 in
  let mp := (m + 9) mod 12 in
  let doy := (153 * mp + 2) / 5 + d - 1 in
  let doe := yoe * 365 + yoe / 4 - yoe / 100 + doy in
  era * 146097 + doe - 719468.

Definition msPerDay : Z := 86400000.

(** The day of a date whose month is 1 to 12 and whose day is 1 to 31,
    in ms; a day past the end of its month runs on into the next one. *)
Definition MakeDate (y m d : Z) : option Z :=
  if (1 <=? m) && (m <=? 12) && (1 <=? d) && (d <=? 31)
  then Some (daysFromCivil y m d * msPerDay) else None.

(** The time of day, in ms; 24:00:00 is the end of the day. *)
Definition MakeTime (h mi s : Z) : option Z :=
  if ((h <=? 23) && (mi <=? 59) && (s <=? 59))
     || ((h =? 24) && (mi =? 0) && (s =? 0))
  then Some (h * 3600000 + mi * 60000 + s * 1000) else None.

Definition num2 (a b : ascii) : option Z :=
  x ← digitIn 10 a; y ← digitIn 10 b; Some (10 * x + y).

Definition num4 (a b c d : ascii) : option Z :=
  x ← num2 a b; y ← num2 c d; Some (100 * x + y).

(** Local time to UTC; [localOffset t] is the offset (ms) the host's
    time zone has at local time [t]. *)
Definition UTC (localOffset : Z → Z) (t : Z) : Z := t - localOffset t.

(** The host of the program: the offset (ms) its time zone has at a
    local time, and what its date parser makes of the strings outside
    the forms fixed under [Date_parse] (ECMAScript leaves them to the
    engine). *)
Record Host := {
  localOffset : Z → Z;
  otherForms : string → option Z;
}.

Definition isDigit (c : ascii) : bool :=
  match digitIn 10 c with Some _ => true | None => false end.

(** The time zone of a date-time string: none (local time), or an
    offset from UTC in ms. *)
Inductive Zone :=
| Local
| Offset (ms : Z).

(** [Z] or [±HH:mm] at the end of an ISO string, or nothing. *)
Definition zone (l : list ascii) : option Zone :=
  match l with
  | [] => Some Local
  | [z] => if isChar z "Z" then Some (Offset 0) else None
  | [sg; h1; h2; c; m1; m2] =>
      if (isChar sg "+" || isChar sg "-") && isChar c ":" then
        h ← num2 h1 h2; m ← num2 m1 m2;
        if (h <=? 23) && (m <=? 59)
        then Some (Offset ((if isChar sg "-" then -1 else 1)
                           * (h * 3600000 + m * 60000)))
        else None
      else None
  | _ => None
  end.

(** [.sss], or nothing. *)
Definition fraction (l : list ascii) : option (Z * list ascii) :=
  match l with
  | p :: f1 :: f2 :: f3 :: rest =>
      if isChar p "." then
        a ← digitIn 10 f1; b ← digitIn 10 f2; c ← digitIn 10 f3;
        Some (100 * a + 10 * b + c, rest)
      else Some (0, l)
  | _ => Some (0, l)
  end.

(** [:ss] and its fraction, or nothing. *)
Definition seconds (l : list ascii) : option (Z * Z * list ascii) :=
  match l with
  | c :: s1 :: s2 :: rest =>
      if isChar c ":" then
        s ← num2 s1 s2; '(ms, rest') ← fraction rest; Some (s, ms, rest')
      else Some (0, 0, l)
  | _ => Some (0, 0, l)
  end.

(** [HH:mm[:ss[.sss]]] and the time zone, after the [T] of an ISO
    string: the ms into the day and the zone. *)
Definition isoTime (l : list ascii) : option (Z * Zone) :=
  match l with
  | h1 :: h2 :: c :: mi1 :: mi2 :: rest =>
      if isChar c ":" then
        h ← num2 h1 h2; mi ← num2 mi1 mi2;
        '(s, ms, rest') ← seconds rest;
        z ← zone rest';
        time ← MakeTime h mi s;
        if (h =? 24) && negb (ms =? 0) then None else Some (time + ms, z)
      else None
  | _ => None
  end.

Definition timeValue (localOffset : Z → Z) (t : Z) (z : Zone) : Z :=
  match z with
  | Local => UTC localOffset t
  | Offset o => t - o
  end.

(** The strings whose reading is fixed here, as Node's engine reads
    them ([Some None] is NaN):
    - a string without any digit is no date;
    - the ISO forms [YYYY-MM-DD] (UTC) and
      [YYYY-MM-DDTHH:mm[:ss[.sss]]] followed by nothing (local time),
      [Z] or [±HH:mm];
    - the two other forms the server documents, [YYYY/MM/DD] and
      [YYYY-MM-DD HH:MM:SS], in local time, for a year from 100 on (a
      smaller number in that place is not always read as the year).
    The month is 1 to 12 and the day 1 to 31 (see [MakeDate]). *)
Definition knownForm (localOffset : Z → Z) (l : list ascii)
  : option (option Z) :=
  if negb (existsb isDigit l) then Some None
  else
    match l with
    | y1 :: y2 :: y3 :: y4 :: s1 :: m1 :: m2 :: s2 :: d1 :: d2 :: rest =>
        y ← num4 y1 y2 y3 y4; m ← num2 m1 m2; d ← num2 d1 d2;
        day ← MakeDate y m d;
        if isChar s1 "-" && isChar s2 "-" then
          match rest with
          | [] => Some (Some day)
          | sp :: rest' =>
              if isChar sp "T" then
                '(time, z) ← isoTime rest';
                Some (Some (timeValue localOffset (day + time) z))
              else if isChar sp " " && (100 <=? y) then
                match rest' with
                | [h1; h2; c1; mi1; mi2; c2; se1; se2] =>
                    if isChar c1 ":" && isChar c2 ":" then
                      h ← num2 h1 h2; mi ← num2 mi1 mi2; se ← num2 se1 se2;
                      time ← MakeTime h mi se;
                      Some (Some (UTC localOffset (day + time)))
                    else None
                | _ => None
                end
              else None
          end
        else if isChar s1 "/" && isChar s2 "/" && (100 <=? y) then
          match rest with
          | [] => Some (Some (UTC localOffset day))
          | _ => None
          end
        else None
    | _ => None
    end.

(** [Date.parse]: the forms above, and for any other string what the
    host's engine makes of it. *)
Definition Date_parse (host : Host) (s : string) : option Z :=
  match knownForm (localOffset host) (list_ascii_of_string s) with
  | Some t => t
  | None => otherForms host s
  end.

(** [String.prototype.includes]. *)
Fixpoint includes (s sub : string) : bool :=
  if String.prefix sub s then true
  else match s with
       | EmptyString => false
       | String _ s' => includes s' sub
       end.

(** *** Values carried by JSON bodies and documents *)

(** The names under which an object literal inherits something from
    [Object.prototype]. *)
Definition Object_prototype : list string :=
  ["constructor"; "__defineGetter__"; "__defineSetter__"; "hasOwnProperty";
   "__lookupGetter__"; "__lookupSetter__"; "isPrototypeOf";
   "propertyIsEnumerable"; "toString"; "valueOf"; "__proto__";
   "toLocaleString"].

(** A field value: absent, a number, a string, a [Date] object, a flat
    record of strings (the [metadata] of a metric), or what an object
    literal inherits under a name of [Object.prototype] (a built-in
    function, or the prototype itself). *)
Inductive value :=
| VUndefined
| VNumber (n : number)
| VString (s : string)
| VDate (d : Date)
| VRecord (r : list (string * string))
| VNative (name : string).

(** ToBoolean. *)
Definition truthy (v : value) : bool :=
  match v with
  | VUndefined => false
  | VNumber n => number_truthy n
  | VString s => negb (String.eqb s "")
  | VDate _ | VRecord _ | VNative _ => true
  end.

(** [new Date(v)]. *)
Definition newDate (host : Host) (v : value) : Date :=
  match v with
  | VUndefined => InvalidDate
  | VNumber n => TimeClip n
  | VString s => mkDate (Date_parse host s)
  | VDate d => d
  | VRecord _ | VNative _ => InvalidDate
  end.

(** *** Objects used as maps *)

(** An array index: the canonical numeral of an integer below 2^32 - 1. *)
Definition arrayIndex (key : string) : option Z :=
  match list_ascii_of_string key with
  | c :: r =>
      if isChar c "0" && negb (length r =? 0)%nat then None
      else
        match digits 10 0 0 (c :: r) with
        | (v, _, []) => if v <? 2 ^ 32 - 1 then Some v else None
        | _ => None
        end
  | [] => None
  end.

Fixpoint insertIndex {A} (i : Z) (x : A) (l : list (Z * A)) : list (Z * A) :=
  match l with
  | (j, y) :: l' =>
      if i <? j then (i, x) :: (j, y) :: l' else (j, y) :: insertIndex i x l'
  | [] => [(i, x)]
  end.

(** [Object.entries] of an object given by its own properties in the
    order of their creation: the array indices come first, in ascending
    order, then the other keys as they were created. *)
Definition Object_entries {A} (obj : list (string * A)) : list (string * A) :=
  map snd (foldr (λ e sorted,
                    match arrayIndex e.1 with
                    | Some i => insertIndex i e sorted
                    | None => sorted
                    end) [] obj)
  ++ List.filter (λ e, bool_decide (arrayIndex e.1 = None)) obj.

(** *** Arithmetic on numbers *)

Definition add (a b : number) : number :=
  match a, b with
  | NaN, _ | _, NaN => NaN
  | Infinity x, Infinity y => if Bool.eqb x y then Infinity x else NaN
  | Infinity x, Finite _ | Finite _, Infinity x => Infinity x
  | Finite x, Finite y => round64 (x + y)
  end.

(** Division by an array length [n > 0]. *)
Definition divLength (a : number) (n : nat) : number :=
  match a with
  | Finite x => round64 (x / inject_Z (Z.of_nat n))
  | _ => a
  end.

Definition max2 (a b : number) : number :=
  match a, b with
  | NaN, _ | _, NaN => NaN
  | Infinity false, _ | _, Infinity false => Infinity false
  | Infinity true, x | x, Infinity true => x
  | Finite x, Finite y => if Qle_bool x y then Finite y else Finite x
  end.

(** [Math.max(...l)]: [-Infinity] for no argument. *)
Definition Math_max (l : list number) : number :=
  foldl max2 (Infinity true) l.

(** Nearest multiple of 1/100, a tie going away from zero. *)
Definition round2 (q : Q) : Q :=
  let n := Qfloor (Qabs q * 100 + (1 # 2))%Q in
  if Qle_bool 0 q then (inject_Z n / 100)%Q else (- (inject_Z n / 100))%Q.

(** [Number(x.toFixed(2))].  [toFixed] prints the nearest number with
    two fraction digits and [Number] reads it back, as the binary64
    number nearest to it; from 10^21 on [toFixed] prints the number
    itself. *)
Definition toFixed2 (x : number) : number :=
  match x with
  | Finite q =>
      if Qle_bool (inject_Z (10 ^ 21)) (Qabs q) then x else round64 (round2 q)
  | _ => x
  end.

End JS.

(* ===================================================================== *)
(** ** utils.ts                                                          *)
(* ===================================================================== *)

Module Utils.
Import JS.

(** The argument of [parseDate]: [string | number | undefined]. *)
Inductive DateInput :=
| Undefined
| Num (n : number)
| Str (s : string).

Definition toValue (x : DateInput) : value :=
  match x with
  | Undefined => VUndefined
  | Num n => VNumber n
  | Str s => VString s
  end.

(** [Number(dateInput)]. *)
Definition Number (x : DateInput) : number :=
  match x with
  | Undefined => NaN
  | Num n => n
  | Str s => StringToNumber s
  end.

Definition typeof_number (x : DateInput) : bool :=
  match x with Num _ => true | _ => false end.

Definition isValidDate (date : Date) : bool :=
  match getTime date with
  | Some _ => true
  | None => false
  end.

Section parseDate.
Variable host : Host.

Definition parseDate (dateInput : DateInput) : option Date :=
  if negb (truthy (toValue dateInput)) then None
  else if typeof_number dateInput || negb (isNaN (Number dateInput)) then
    let date := newDate host (VNumber (Number dateInput)) in
    if isValidDate date then Some date else None
  else
    match dateInput with
    | Str s =>
        if includes s "/" then
          let date := newDate host (VString s) in
          if isValidDate date then Some date else None
        else if includes s "-" then
          let date := newDate host (VString s) in
          if isValidDate date then Some date else None
        else None
    | _ => None
    end.
End parseDate.

End Utils.

(* ===================================================================== *)
(** ** models/Workout.ts                                                 *)
(* ===================================================================== *)

Module Workout.
Import JS.

(** [IQuantityMetric] and [IMeasurement] have the same fields.  A field
    typed [Date] holds, in a raw record, whatever the JSON body carried
    there, and a [Date] object once mapped. *)
Record IQuantityMetric := {
  qty : number;
  qm_date : value;
  qm_units : string;
  qm_source : string;
}.

Definition IMeasurement := IQuantityMetric.

Record IHeartRate := {
  Min : number;
  Avg : number;
  Max : number;
  hr_date : value;
  hr_units : string;
  hr_source : string;
}.

Record ILocation := {
  latitude : number;
  longitude : number;
  course : option number;
  courseAccuracy : option number;
  speed : option number;
  speedAccuracy : option number;
  altitude : option number;
  verticalAccuracy : option number;
  horizontalAccuracy : option number;
  timestamp : value;
}.

Record IRoute := {
  r_workoutId : string;
  locations : option (list ILocation);
}.

(** Every field of [WorkoutData] but [id]: what the destructuring
    [const { id, ...rest } = data] names [rest]. *)
Record WorkoutRest := {
  name : string;
  start : value;
  end_ : value;
  duration : number;
  distance : option IMeasurement;
  activeEnergyBurned : option IMeasurement;
  activeEnergy : option IQuantityMetric;
  heartRateData : option (list IHeartRate);
  heartRateRecovery : option (list IHeartRate);
  stepCount : option (list IQuantityMetric);
  temperature : option IMeasurement;
  humidity : option IMeasurement;
  intensity : option IMeasurement;
  route : option (list ILocation);
  totalEnergy : option IQuantityMetric;
  maxHeartRate : option number;
  avgHeartRate : option number;
  stepCadence : option IQuantityMetric;
  totalSwimmingStrokeCount : option IQuantityMetric;
  swimCadence : option IQuantityMetric;
  w_speed : option IQuantityMetric;
  flightsClimbed : option IQuantityMetric;
  elevation : option IQuantityMetric;
}.

Record WorkoutData := {
  id : string;
  rest : WorkoutRest;
}.

(** The object [mapWorkoutData] returns: [{ workoutId: id, ...rest }]. *)
Record MappedWorkout := {
  workoutId : string;
  fields : WorkoutRest;
}.

(** The [locations] validator of [routeSchema]. *)
Definition routeSchema_validator (array : list ILocation) : bool :=
  (0 <? length array)%nat.

(** [!x] on an optional number. *)
Definition missing (x : option number) : bool :=
  match x with
  | Some n => negb (number_truthy n)
  | None => true
  end.

Section mapping.
Variable host : Host.

Definition convertMetricDate (metric : option IQuantityMetric)
  : option IQuantityMetric :=
  match metric with
  | Some m =>
      if truthy (qm_date m) then
        Some {| qty := qty m;
                qm_date := VDate (newDate host (qm_date m));
                qm_units := qm_units m;
                qm_source := qm_source m |}
      else metric
  | None => metric
  end.

Definition convertHeartRate (hr : IHeartRate) : IHeartRate :=
  {| Min := Min hr; Avg := Avg hr; Max := Max hr;
     hr_date := VDate (newDate host (hr_date hr));
     hr_units := hr_units hr; hr_source := hr_source hr |}.

Definition mapWorkoutData (data : WorkoutData) : MappedWorkout :=
  let rest := rest data in
  let hrData := map convertHeartRate <$> heartRateData rest in
  let nonEmpty :=
    match hrData with
    | Some l => (0 <? length l)%nat
    | None => false
    end in
  let samples := default [] hrData in
  let maxHR :=
    if missing (maxHeartRate rest) && nonEmpty
    then Some (Math_max (map Max samples))
    else maxHeartRate rest in
  let avgHR :=
    if missing (avgHeartRate rest) && nonEmpty
    then
      let avg := divLength (foldl (λ sum hr, add sum (Avg hr)) (Finite 0) samples)
                           (length samples) in
      Some (toFixed2 avg)
    else avgHeartRate rest in
  {| workoutId := id data;
     fields :=
       {| name := name rest;
          start := VDate (newDate host (start rest));
          end_ := VDate (newDate host (end_ rest));
          duration := duration rest;
          distance := convertMetricDate (distance rest);
          activeEnergyBurned := convertMetricDate (activeEnergyBurned rest);
          activeEnergy := convertMetricDate (activeEnergy rest);
          heartRateData := hrData;
          heartRateRecovery := map convertHeartRate <$> heartRateRecovery rest;
          stepCount :=
            map (λ metric, default metric (convertMetricDate (Some metric)))
              <$> stepCount rest;
          temperature := convertMetricDate (temperature rest);
          humidity := convertMetricDate (humidity rest);
          intensity := convertMetricDate (intensity rest);
          route := route rest;
          totalEnergy := convertMetricDate (totalEnergy rest);
          maxHeartRate := maxHR;
          avgHeartRate := avgHR;
          stepCadence := convertMetricDate (stepCadence rest);
          totalSwimmingStrokeCount :=
            convertMetricDate (totalSwimmingStrokeCount rest);
          swimCadence := convertMetricDate (swimCadence rest);
          w_speed := convertMetricDate (w_speed rest);
          flightsClimbed := convertMetricDate (flightsClimbed rest);
          elevation := convertMetricDate (elevation rest) |} |}.

Definition mapLocation (loc : ILocation) : ILocation :=
  {| latitude := latitude loc; longitude := longitude loc;
     course := course loc; courseAccuracy := courseAccuracy loc;
     speed := speed loc; speedAccuracy := speedAccuracy loc;
     altitude := altitude loc; verticalAccuracy := verticalAccuracy loc;
     horizontalAccuracy := horizontalAccuracy loc;
     timestamp := VDate (newDate host (timestamp loc)) |}.

Definition mapRoute (data : WorkoutData) : IRoute :=
  {| r_workoutId := id data;
     locations := map mapLocation <$> route (rest data) |}.

(** Modelled from the spec: the caller of [mapRoute], in
    controllers/workouts.ts, which is not part of the sources.  The
    route is extracted when the raw workout carries a location
    sequence and omitted entirely when that sequence is empty. *)
Definition extractRoute (data : WorkoutData) : option IRoute :=
  match route (rest data) with
  | Some (_ :: _) => Some (mapRoute data)
  | _ => None
  end.

(** Validation of a route document against [routeSchema]:
    [workoutId] and [locations] are required, and [locations] goes
    through the validator. *)
Definition routeSchema_validate (r : IRoute) : bool :=
  match locations r with
  | Some array => routeSchema_validator array
  | None => false
  end.

End mapping.

End Workout.

(* ===================================================================== *)
(** ** The document store, as the controllers use it                     *)
(* ===================================================================== *)

Module Mongo.
Import JS.

#[global] Instance Q_eq_dec : EqDecision Q.
Proof. solve_decision. Defined.
#[global] Instance number_eq_dec : EqDecision number.
Proof. solve_decision. Defined.
#[global] Instance Date_eq_dec : EqDecision Date.
Proof. solve_decision. Defined.
#[global] Instance value_eq_dec : EqDecision value.
Proof. solve_decision. Defined.

(** A stored document, and a plain object of the request: a finite map
    from field names to values ([undefined] is an absent key). *)
Abbreviation Doc := (gmap string value).

(** The models (one collection each) the server writes to.
    [MetricModel key] is what [createMetricModel(key)] returns. *)
Inductive Model :=
| BloodPressureModel
| HeartRateModel
| SleepModel
| MetricModel (key : string)
| WorkoutModel
| RouteModel.

#[global] Instance Model_eq_dec : EqDecision Model.
Proof. solve_decision. Defined.

(** One [updateOne] operation of a bulk write.  A filter lists the
    fields that must be equal; a field asked to equal [undefined] must
    be absent. *)
Record UpdateOne := {
  op_filter : list (string * option value);
  op_set : Doc;
  op_upsert : bool;
}.

Definition matches (f : list (string * option value)) (d : Doc) : bool :=
  forallb (λ kv, bool_decide (d !! kv.1 = kv.2)) f.

(** The equality fields of a filter, which an upsert copies into the
    document it inserts. *)
Definition filterDoc (f : list (string * option value)) : Doc :=
  list_to_map (omap (λ kv, pair kv.1 <$> kv.2) f).

(** [$set] on the first document the filter selects; with [upsert], a
    new document when it selects none.  [$set] writes the fields it
    names and leaves every other field of the document as it was. *)
Fixpoint updateOne (op : UpdateOne) (docs : list Doc) : list Doc :=
  match docs with
  | d :: docs' =>
      if matches (op_filter op) d then (op_set op ∪ d) :: docs'
      else d :: updateOne op docs'
  | [] => if op_upsert op then [op_set op ∪ filterDoc (op_filter op)] else []
  end.

Definition applyAll (ops : list UpdateOne) (docs : list Doc) : list Doc :=
  foldl (λ ds op, updateOne op ds) docs ops.

(** The collections, and the bulk writes issued so far. *)
Record State := {
  colls : Model → list Doc;
  log : list (Model * list UpdateOne);
}.

(** What the store does with a bulk write to a model: [None] when it
    goes through, [Some (n, msg)] when it raises [msg] at operation [n]
    (an ordered bulk write has applied the operations before it). *)
Abbreviation Fault := (Model → option (nat * string)).

Definition noFault : Fault := λ _, None.

Definition bulkWrite (fault : Fault) (model : Model) (ops : list UpdateOne)
    (st : State) : option string * State :=
  let applied := match fault model with
                 | Some (n, _) => take n ops
                 | None => ops
                 end in
  (snd <$> fault model,
   {| colls := <[model := applyAll applied (colls st model)]> (colls st);
      log := log st ++ [(model, ops)] |}).

End Mongo.

(* ===================================================================== *)
(** ** models/IngestData.ts, models/IngestResponse.ts                    *)
(* ===================================================================== *)

Module Ingest.
Import JS Mongo.

(** A raw metric of the request body: [{ name, units, data }]. *)
Record MetricData := {
  md_name : string;
  md_units : string;
  md_data : list Doc;
}.

Record Payload := {
  metrics : option (list MetricData);
  workouts : option (list Workout.WorkoutData);
}.

Record IngestData := {
  data : option Payload;
}.

Record Outcome := {
  success : bool;
  message : option string;
  error : option string;
}.

(** [{ metrics?: Outcome, workouts?: Outcome }]. *)
Record IngestResponse := {
  r_metrics : option Outcome;
  r_workouts : option Outcome;
}.

(** [{ ...a, ...b }]. *)
Definition spread (a b : IngestResponse) : IngestResponse :=
  {| r_metrics := match r_metrics b with Some o => Some o | None => r_metrics a end;
     r_workouts := match r_workouts b with Some o => Some o | None => r_workouts a end |}.

(** [Object.values]. *)
Definition values (r : IngestResponse) : list Outcome :=
  option_list (r_metrics r) ++ option_list (r_workouts r).

End Ingest.

(* ===================================================================== *)
(** ** controllers/metrics.ts                                            *)
(* ===================================================================== *)

Module Metrics.
Import JS Mongo Ingest.

(** The message of the TypeError raised by reading a property of
    [undefined]. *)
Definition typeError (prop : string) : string :=
  "Cannot read properties of undefined (reading '" +:+ prop +:+ "')".

Section saveMetrics.
(** The members of the [MetricName] enumeration the switch names. *)
Variables BLOOD_PRESSURE HEART_RATE SLEEP_ANALYSIS : string.
(** [mapMetric] of models/Metric.ts. *)
Variable mapMetric : MetricData → list Doc.
Variable fault : Fault.

(** The message of the TypeError raised by calling [push] on what
    [acc[key]] is when that is not an array. *)
Definition notAFunction : string := "acc[key].push is not a function".

(** [acc[key] = acc[key] || []; acc[key].push(...mappedMetrics)], on
    the own properties of [acc] in the order of their creation.  For a
    key [acc] does not own, [acc[key]] is what the object inherits under
    that name, if anything: it is truthy and has no [push], so the call
    throws ([None]). *)
Fixpoint push (key : string) (mapped : list Doc)
    (acc : list (string * list Doc)) : option (list (string * list Doc)) :=
  match acc with
  | (k, ms) :: acc' =>
      if String.eqb k key then Some ((k, ms ++ mapped) :: acc')
      else cons (k, ms) <$> push key mapped acc'
  | [] =>
      if bool_decide (key ∈ Object_prototype) then None
      else Some [(key, mapped)]
  end.

(** The [reduce] over the metrics of the request: [None] when it
    throws. *)
Definition metricsByType (metricsData : list MetricData)
  : option (list (string * list Doc)) :=
  foldl (λ acc metric, acc ≫= push (md_name metric) (mapMetric metric))
        (Some []) metricsData.

Definition modelOf (key : string) : Model :=
  if String.eqb key BLOOD_PRESSURE then BloodPressureModel
  else if String.eqb key HEART_RATE then HeartRateModel
  else if String.eqb key SLEEP_ANALYSIS then SleepModel
  else MetricModel key.

Definition upsertOf (metric : Doc) : UpdateOne :=
  {| op_filter := [("source", metric !! "source"); ("date", metric !! "date")];
     op_set := metric;
     op_upsert := true |}.

(** Every bulk write is issued, whatever the others answer; the
    results are those of the promises, in order. *)
Fixpoint saveOperations (entries : list (string * list Doc)) (st : State)
  : list (option string) * State :=
  match entries with
  | (key, metrics) :: entries' =>
      let '(r, st1) := bulkWrite fault (modelOf key) (map upsertOf metrics) st in
      let '(rs, st2) := saveOperations entries' st1 in
      (r :: rs, st2)
  | [] => ([], st)
  end.

(** [Promise.all]: the first rejection, if any (taken here in the
    order the writes were issued). *)
Definition rejection (results : list (option string)) : option string :=
  list_find is_Some results ≫= snd.

Definition failed (msg : string) : IngestResponse :=
  {| r_metrics := Some {| success := false; message := None; error := Some msg |};
     r_workouts := None |}.

Definition saveMetrics (ingestData : IngestData) (st : State)
  : IngestResponse * State :=
  match data ingestData with
  | None => (failed (typeError "metrics"), st)
  | Some payload =>
      let metricsData := metrics payload in
      match metricsData with
      | None | Some [] =>
          ({| r_metrics := Some {| success := true; message := None;
                                   error := Some "No metrics data provided" |};
              r_workouts := None |}, st)
      | Some metricsData =>
          match metricsByType metricsData with
          | None => (failed notAFunction, st)
          | Some groups =>
              let '(results, st') := saveOperations (Object_entries groups) st in
              match rejection results with
              | Some msg => (failed msg, st')
              | None =>
                  ({| r_metrics :=
                        Some {| success := true;
                                message := Some (pretty (length metricsData)
                                                 +:+ " metrics saved successfully");
                                error := None |};
                      r_workouts := None |}, st')
              end
          end
      end
  end.
End saveMetrics.

End Metrics.

(* ===================================================================== *)
(** ** controllers/workouts.ts                                           *)
(* ===================================================================== *)

Module Workouts.
Import JS Mongo Ingest.

Section saveWorkouts.
Variable host : Host.
Variable fault : Fault.

(** The scalar fields of a mapped workout, as a stored document. *)
Definition workoutDoc (w : Workout.MappedWorkout) : Doc :=
  let f := Workout.fields w in
  {[ "workoutId" := VString (Workout.workoutId w);
     "name" := VString (Workout.name f);
     "start" := Workout.start f;
     "end" := Workout.end_ f;
     "duration" := VNumber (Workout.duration f) ]}
  ∪ from_option (λ n, {[ "maxHeartRate" := VNumber n ]}) ∅ (Workout.maxHeartRate f)
  ∪ from_option (λ n, {[ "avgHeartRate" := VNumber n ]}) ∅ (Workout.avgHeartRate f).

Definition upsertOf (w : Workout.WorkoutData) : UpdateOne :=
  {| op_filter := [("workoutId", Some (VString (Workout.id w)))];
     op_set := workoutDoc (Workout.mapWorkoutData host w);
     op_upsert := true |}.

(** Modelled from the spec: [saveWorkouts] of controllers/workouts.ts,
    which is not part of the sources.  The workouts group is written by
    one bulk upsert whose filter is the workout identifier; a workout
    without identifier is left out; an empty group answers
    [{success: true, message: "no records"}] without any write; a failed
    write is the group's [error].  Route documents are left out of this
    model. *)
Definition saveWorkouts (ingestData : IngestData) (st : State)
  : (string + IngestResponse) * State :=
  match data ingestData ≫= workouts with
  | None | Some [] =>
      (inr {| r_metrics := None;
              r_workouts := Some {| success := true;
                                    message := Some "no records";
                                    error := None |} |}, st)
  | Some ws =>
      let valid := filter (λ w, Workout.id w ≠ "") ws in
      let '(r, st') := bulkWrite fault WorkoutModel (map upsertOf valid) st in
      (inr {| r_metrics := None;
              r_workouts :=
                Some match r with
                     | None => {| success := true;
                                  message := Some "workouts saved";
                                  error := None |}
                     | Some msg => {| success := false;
                                      message := None;
                                      error := Some msg |}
                     end |}, st')
  end.
End saveWorkouts.

End Workouts.

(* ===================================================================== *)
(** ** controllers/ingester.ts                                           *)
(* ===================================================================== *)

Module Ingester.
Import JS Mongo Ingest.

(** The JSON body sent back: the grouped outcomes, or the top-level
    [{ error, message }] object. *)
Inductive Body :=
| Grouped (response : IngestResponse)
| TopLevel (error message : string).

Record Response := {
  status : Z;
  json : Body;
}.

Section ingestData.
Variables BLOOD_PRESSURE HEART_RATE SLEEP_ANALYSIS : string.
Variable mapMetric : MetricData → list Doc.
Variable fault : Fault.
(** [saveWorkouts] of controllers/workouts.ts: the promise resolves
    to a response ([inr]) or rejects with an error ([inl]). *)
Variable saveWorkouts : IngestData → State → (string + IngestResponse) * State.

Definition saveMetrics :=
  Metrics.saveMetrics BLOOD_PRESSURE HEART_RATE SLEEP_ANALYSIS mapMetric fault.

(** [req.body] is [None] when it is absent (falsy). *)
Definition ingestData (body : option IngestData) (st : State)
  : Response * State :=
  match body with
  | None =>
      ({| status := 500;
          json := TopLevel "Failed to process request" "No data provided" |}, st)
  | Some data =>
      let '(metricsResponse, st1) := saveMetrics data st in
      match saveWorkouts data st1 with
      | (inl msg, st2) =>
          ({| status := 500;
              json := TopLevel "Failed to process request" msg |}, st2)
      | (inr workoutsResponse, st2) =>
          let response := spread metricsResponse workoutsResponse in
          let hasErrors := existsb (λ r, negb (success r)) (values response) in
          let allFailed := forallb (λ r, negb (success r)) (values response) in
          if allFailed then ({| status := 500; json := Grouped response |}, st2)
          else ({| status := if hasErrors then 207 else 200;
                   json := Grouped response |}, st2)
      end
  end.
End ingestData.

End Ingester.

(* ===================================================================== *)
(** ** Records of a metric, as the specification has them normalized     *)
(* ===================================================================== *)

Module MetricSpec.
Import JS Mongo Utils.

Definition dateInputOf (v : option value) : DateInput :=
  match v with
  | Some (VNumber n) => Num n
  | Some (VString s) => Str s
  | _ => Undefined
  end.

(** Modelled from the spec: the timestamp step of [mapMetric]
    (models/Metric.ts, which is not part of the sources).  The
    timestamp of a raw record is resolved with [parseDate]; a record
    whose timestamp resolves to no value is skipped, the others are
    kept in order. *)
Definition resolveRecords (host : Host) (records : list Doc) : list Doc :=
  omap (λ r, d ← parseDate host (dateInputOf (r !! "date"));
             Some (<["date" := VDate d]> r)) records.

End MetricSpec.

(* ===================================================================== *)
(** ** Vocabulary of the statements                                      *)
(* ===================================================================== *)

Module Statements.
Import JS Mongo Ingest.

(** What the parser needs to know about a decimal digit. *)
Definition plainDigit (c : ascii) : Prop :=
  isWhiteSpace c = false ∧ isChar c "-" = false ∧ isChar c "+" = false
  ∧ isChar c "." = false ∧ isChar c "e" = false ∧ isChar c "E" = false
  ∧ isChar c "x" = false ∧ isChar c "X" = false ∧ isChar c "o" = false
  ∧ isChar c "O" = false ∧ isChar c "b" = false ∧ isChar c "B" = false
  ∧ isChar c "I" = false.

Definition isDecimal (c : ascii) : Prop := is_Some (digitIn 10 c).

(** Value of a run of decimal digits read after [acc]. *)
Definition digitsValue (acc : Z) (ds : list ascii) : Z :=
  foldl (λ a c, 10 * a + default 0 (digitIn 10 c)) acc ds.

(** The valid date of a time value, if any. *)
Definition validated (t : option Z) : option Date :=
  match t with
  | Some t => Some (DateOf t)
  | None => None
  end.

(** The identity of a metric document within its collection. *)
Definition key (d : Doc) : option value * option value :=
  (d !! "source", d !! "date").

(** The upsert of a metric by its identity: the first document with the
    identity of [m] takes the fields of [m]; without one, [m] is added. *)
Fixpoint upsert (m : Doc) (docs : list Doc) : list Doc :=
  match docs with
  | d :: docs' =>
      if decide (key d = key m) then (m ∪ d) :: docs' else d :: upsert m docs'
  | [] => [m]
  end.

Definition upsertAll (ms : list Doc) (docs : list Doc) : list Doc :=
  foldl (λ ds m, upsert m ds) docs ms.


(** The metrics a grouped batch sends to a model, in order. *)
Definition metricsOf (modelOf : string → Model) (model : Model)
    (entries : list (string * list Doc)) : list Doc :=
  concat (map snd (filter (λ e, modelOf e.1 = model) entries)).

(** The three classes of a grouped response. *)
Definition allSucceed (r : IngestResponse) : Prop :=
  ∀ o, o ∈ values r → success o = true.

Definition allFail (r : IngestResponse) : Prop :=
  ∀ o, o ∈ values r → success o = false.

Definition partly (r : IngestResponse) : Prop :=
  (∃ o, o ∈ values r ∧ success o = false)
  ∧ (∃ o, o ∈ values r ∧ success o = true).


(** [m] is the greatest element of [qs]. *)
Definition isMaximum (m : Q) (qs : list Q) : Prop :=
  m ∈ qs ∧ ∀ x, x ∈ qs → (x <= m)%Q.

(** [r] is [q] to two decimal places. *)
Definition roundedTo2 (r q : Q) : Prop :=
  (∃ n : Z, r == inject_Z n / 100)%Q ∧ (Qabs (r - q) <= 1 # 200)%Q.

(** The characters of ["YYYY-MM-DD"], ["YYYY/MM/DD"] and [" HH:MM:SS"]. *)
Definition dateChars (sep y1 y2 y3 y4 m1 m2 d1 d2 : ascii) : list ascii :=
  [y1; y2; y3; y4; sep; m1; m2; sep; d1; d2].


End Statements.

(* ===================================================================== *)
(** ** Sample inputs                                                     *)
(* ===================================================================== *)

Module Examples.
Import JS Mongo Ingest.

(** A host one hour east of Greenwich all year, whose engine reads no
    date beyond the forms of [Date_parse]. *)
Definition cet : Host :=
  {| localOffset := λ _, 3600000; otherForms := λ _, None |}.

Definition record (source : string) (date : value) (qty : Z) : Doc :=
  {[ "source" := VString source; "date" := date;
     "qty" := VNumber (Finite (inject_Z qty)) ]}.

(** A heart-rate sample, a GPS point and a workout around them. *)
Definition sample (mn av mx : Z) : Workout.IHeartRate :=
  {| Workout.Min := Finite (inject_Z mn);
     Workout.Avg := Finite (inject_Z av);
     Workout.Max := Finite (inject_Z mx);
     Workout.hr_date := VString "2024-01-15 08:30:00";
     Workout.hr_units := "bpm";
     Workout.hr_source := "watch" |}.

Definition point (lat lon : Z) (ts : value) : Workout.ILocation :=
  {| Workout.latitude := Finite (inject_Z lat);
     Workout.longitude := Finite (inject_Z lon);
     Workout.course := None; Workout.courseAccuracy := None;
     Workout.speed := None; Workout.speedAccuracy := None;
     Workout.altitude := None; Workout.verticalAccuracy := None;
     Workout.horizontalAccuracy := None;
     Workout.timestamp := ts |}.

Definition run (hr : option (list Workout.IHeartRate))
    (maxHR avgHR : option number) (route : option (list Workout.ILocation))
  : Workout.WorkoutData :=
  {| Workout.id := "run-1";
     Workout.rest :=
       {| Workout.name := "Running";
          Workout.start := VString "2024-01-15 08:30:00";
          Workout.end_ := VString "2024-01-15 09:00:00";
          Workout.duration := Finite 1800;
          Workout.distance := None;
          Workout.activeEnergyBurned := None;
          Workout.activeEnergy := None;
          Workout.heartRateData := hr;
          Workout.heartRateRecovery := None;
          Workout.stepCount := None;
          Workout.temperature := None;
          Workout.humidity := None;
          Workout.intensity := None;
          Workout.route := route;
          Workout.totalEnergy := None;
          Workout.maxHeartRate := maxHR;
          Workout.avgHeartRate := avgHR;
          Workout.stepCadence := None;
          Workout.totalSwimmingStrokeCount := None;
          Workout.swimCadence := None;
          Workout.w_speed := None;
          Workout.flightsClimbed := None;
          Workout.elevation := None |} |}.

(** A store with no document and no write so far. *)
Definition emptyStore : State := {| colls := λ _, []; log := [] |}.

(** A store that refuses every bulk write to one model. *)
Definition failing (model : Model) : Fault :=
  λ m, if decide (m = model) then Some (0%nat, "store unreachable") else None.

(** A store that refuses every bulk write. *)
Definition down : Fault := λ _, Some (0%nat, "store unreachable").

(** The mapping used in the examples: the timestamp step alone. *)
Definition mapTimestamps (metric : MetricData) : list Doc :=
  MetricSpec.resolveRecords cet (md_data metric).

Definition request (ms : option (list MetricData))
    (ws : option (list Workout.WorkoutData)) : IngestData :=
  {| data := Some {| metrics := ms; workouts := ws |} |}.

Definition heartRates : MetricData :=
  {| md_name := "heart_rate"; md_units := "bpm";
     md_data := [record "watch" (VString "2024-01-15 08:30:00") 70;
                 record "watch" (VString "2024-01-15 08:31:00") 72] |}.

Definition steps : MetricData :=
  {| md_name := "step_count"; md_units := "count";
     md_data := [record "phone" (VString "2024-01-15") 9000] |}.

Definition saveMetrics (fault : Fault) :=
  Metrics.saveMetrics "blood_pressure" "heart_rate" "sleep_analysis"
    mapTimestamps fault.

Definition ingestData (fault : Fault) :=
  Ingester.ingestData "blood_pressure" "heart_rate" "sleep_analysis"
    mapTimestamps fault (Workouts.saveWorkouts cet fault).

(** Two metric kinds and one workout. *)
Definition morning : IngestData :=
  request (Some [heartRates; steps]) (Some [run None None None None]).



Definition succeeded (text : string) : Outcome :=
  {| success := true; message := Some text; error := None |}.

Definition refused : Outcome :=
  {| success := false; message := None; error := Some "store unreachable" |}.

(** A stored heart-rate sample that carries a [metadata] field, and a
    store holding it. *)
Definition tagged : Doc :=
  <["metadata" := VRecord [("device", "watch-7")]]>
    (record "watch" (VDate (DateOf 1705303800000)) 70).

Definition withTagged : State :=
  {| colls := <[HeartRateModel := [tagged]]> (λ _, []); log := [] |}.

(** The same sample sent again, with a new value and no [metadata]. *)
Definition resent : IngestData :=
  request (Some [{| md_name := "heart_rate"; md_units := "bpm";
                    md_data := [record "watch" (VString "2024-01-15 08:30:00") 71] |}])
          None.

End Examples.

(* ===================================================================== *)
(** ** utils.ts: [filterFields]                                          *)
(* ===================================================================== *)

Module Fields.
Import JS Mongo.

(** [s.split(',')] on the characters of [s]: the pieces between commas,
    one piece (the whole string) when there is no comma. *)
Fixpoint splitChars (l : list ascii) : list (list ascii) :=
  match l with
  | [] => [[]]
  | c :: l' =>
      if isChar c "," then [] :: splitChars l'
      else match splitChars l' with
           | piece :: pieces => (c :: piece) :: pieces
           | [] => [[c]]
           end
  end.

Definition split (s : string) : list string :=
  map string_of_list_ascii (splitChars (list_ascii_of_string s)).

(** A raw query parameter is [undefined] or a string; the empty string
    is falsy. *)
Definition given (param : option string) : bool :=
  match param with
  | Some s => negb (String.eqb s "")
  | None => false
  end.

Definition parse (param : option string) : option (list string) :=
  match param with
  | Some s => if negb (String.eqb s "") then Some (split s) else None
  | None => None
  end.

(** [obj[field]]: the own property, or else what the object inherits
    under that name. *)
Definition get (obj : Doc) (field : string) : value :=
  match obj !! field with
  | Some v => v
  | None =>
      if bool_decide (field ∈ Object_prototype) then VNative field
      else VUndefined
  end.

(** [filtered[field] = v] on an object literal: an assignment to
    [__proto__] goes to the setter the object inherits and makes no own
    property. *)
Definition assign (field : string) (v : value) (filtered : Doc) : Doc :=
  if String.eqb field "__proto__" then filtered else <[field := v]> filtered.

(** [if (obj[field] !== undefined) filtered[field] = obj[field]] for
    every listed field. *)
Definition pick (obj : Doc) (fields : list string) : Doc :=
  foldl (λ filtered field,
           match get obj field with
           | VUndefined => filtered
           | v => assign field v filtered
           end) ∅ fields.

(** [delete filtered[field]] for every listed field, on a copy of [obj]. *)
Definition omit (obj : Doc) (fields : list string) : Doc :=
  foldl (λ filtered field, delete field filtered) obj fields.

Definition listed (fields : option (list string)) : bool :=
  match fields with
  | Some l => (0 <? length l)%nat
  | None => false
  end.

Definition filterFields (obj : Doc) (include exclude : option string) : Doc :=
  let includeFields := parse include in
  let excludeFields := parse exclude in
  if bool_decide (includeFields = None) && bool_decide (excludeFields = None)
  then obj
  else if listed includeFields then pick obj (default [] includeFields)
  else if listed excludeFields then omit obj (default [] excludeFields)
  else obj.

End Fields.

(* ===================================================================== *)
(** ** controllers/metrics.ts: [getMetrics]                              *)
(* ===================================================================== *)

Module Query.
Import JS Mongo Utils.

(** The filter [getMetrics] hands to [find]: [{}] or
    [{ date: { $gte, $lte } }]. *)
Inductive Filter :=
| Everything
| DateBetween (gte lte : Date).

(** [$gte]/[$lte] against dates select the documents whose [date] field
    is a date within the bounds. *)
Definition between (gte lte : Date) (d : Doc) : bool :=
  match d !! "date" with
  | Some (VDate x) =>
      match getTime gte, getTime x, getTime lte with
      | Some a, Some t, Some b => (a <=? t) && (t <=? b)
      | _, _, _ => false
      end
  | _ => false
  end.

(** [Model.find(query).lean()] on the documents of the collection. *)
Definition find (query : Filter) (docs : list Doc) : list Doc :=
  match query with
  | Everything => docs
  | DateBetween gte lte => List.filter (between gte lte) docs
  end.

(** The parts of the request [getMetrics] reads: the route parameter and
    four query parameters. *)
Record Request := {
  selected_metric : option string;
  from : option string;
  to : option string;
  include : option string;
  exclude : option string;
}.

(** What [res.json] is given: the metrics, or [{ error }]. *)
Inductive Body :=
| Found (metrics : list Doc)
| Failed (error : string).

Definition dateParam (param : option string) : DateInput :=
  match param with
  | Some s => Str s
  | None => Undefined
  end.

Section getMetrics.
Variables BLOOD_PRESSURE HEART_RATE SLEEP_ANALYSIS : string.
Variable host : Host.
(** What the store answers to a [find] on a model: [Some msg] when it
    raises [msg]. *)
Variable readFault : Model → option string.

Definition query (req : Request) : Filter :=
  let fromDate := parseDate host (dateParam (from req)) in
  let toDate := parseDate host (dateParam (to req)) in
  match fromDate, toDate with
  | Some fromDate, Some toDate => DateBetween fromDate toDate
  | _, _ => Everything
  end.

Definition getMetrics (req : Request) (st : State) : Body :=
  match selected_metric req with
  | None => Failed "No metric selected"
  | Some selectedMetric =>
      if String.eqb selectedMetric "" then Failed "No metric selected"
      else
        let model :=
          Metrics.modelOf BLOOD_PRESSURE HEART_RATE SLEEP_ANALYSIS selectedMetric in
        match readFault model with
        | Some msg => Failed msg
        | None =>
            let metrics := find (query req) (colls st model) in
            if Fields.given (include req) || Fields.given (exclude req)
            then Found (map (λ metric,
                               Fields.filterFields metric (include req) (exclude req))
                            metrics)
            else Found metrics
        end
  end.
End getMetrics.

End Query.

(* ===================================================================== *)
(** ** middleware/auth.ts                                                *)
(* ===================================================================== *)

Module Auth.

(** What a middleware does with a request: hand it on, or answer. *)
Inductive Outcome :=
| Next
| Answer (status : Z) (error : string).

Definition startsWith (s prefix : string) : bool := String.prefix prefix s.

(** [env] is [process.env], [headers] are the request's. *)
Definition requireReadAuth (env headers : gmap string string) : Outcome :=
  match headers !! "api-key" with
  | Some token =>
      if String.eqb token "" || negb (startsWith token "sk-")
         || negb (bool_decide (Some token = env !! "READ_TOKEN"))
      then Answer 401 "Unauthorized: Invalid read token"
      else Next
  | None => Answer 401 "Unauthorized: Invalid read token"
  end.

Definition requireWriteAuth (env headers : gmap string string) : Outcome :=
  match headers !! "api-key" with
  | Some token =>
      if String.eqb token "" || negb (startsWith token "sk-")
         || negb (bool_decide (Some token = env !! "WRITE_TOKEN"))
      then Answer 401 "Unauthorized: Invalid write token"
      else Next
  | None => Answer 401 "Unauthorized: Invalid write token"
  end.

End Auth.

(* ===================================================================== *)
(** ** The server's routes                                               *)
(* ===================================================================== *)

Module Server.
Import Mongo.

(** The answer of a route behind a middleware: the middleware's own, or
    the handler's. *)
Inductive Reply (A : Type) :=
| Denied (status : Z) (error : string)
| Handled (answer : A).
Arguments Denied {A}.
Arguments Handled {A}.

(** [app.use('/api/data', requireWriteAuth, ingesterRouter)]: the router
    runs only when the middleware calls [next]. *)
Definition apiData {A B} (env headers : gmap string string)
    (ingesterRouter : B → State → A * State) (body : B) (st : State)
  : Reply A * State :=
  match Auth.requireWriteAuth env headers with
  | Auth.Next => let '(answer, st') := ingesterRouter body st in (Handled answer, st')
  | Auth.Answer status error => (Denied status error, st)
  end.

(** [app.use('/api/metrics', requireReadAuth, metricsRouter)]. *)
Definition apiMetrics {A B} (env headers : gmap string string)
    (metricsRouter : B → State → A) (req : B) (st : State) : Reply A :=
  match Auth.requireReadAuth env headers with
  | Auth.Next => Handled (metricsRouter req st)
  | Auth.Answer status error => Denied status error
  end.

End Server.

(* ===================================================================== *)
(** ** create-env.sh                                                     *)
(* ===================================================================== *)

Module CreateEnv.

Definition isAlnum (c : ascii) : bool :=
  let n := nat_of_ascii c in
  (((97 <=? n) && (n <=? 122)) || ((65 <=? n) && (n <=? 90))
   || ((48 <=? n) && (n <=? 57)))%nat.

(** [sk-$(openssl rand -base64 32 | tr -dc 'a-zA-Z0-9' | head -c 32)],
    for the text [random] that [openssl] prints. *)
Definition token (random : string) : string :=
  "sk-" +:+ string_of_list_ascii
              (take 32 (List.filter isAlnum (list_ascii_of_string random))).

(** The assignments the script writes to [.env], for the two texts
    [openssl] prints. *)
Definition env (random1 random2 : string) : gmap string string :=
  {[ "NODE_ENV" := "production";
     "READ_TOKEN" := token random1;
     "WRITE_TOKEN" := token random2;
     "MONGO_HOST" := "hae-mongo";
     "MONGO_USERNAME" := "admin";
     "MONGO_PASSWORD" := "mypassword";
     "MONGO_DB" := "health-auto-export";
     "MONGO_PORT" := "27017";
     "ADMIN_USER" := "admin";
     "ADMIN_PASSWORD" := "mypassword" ]}.

End CreateEnv.

(* ===================================================================== *)
(** ** The import script                                                 *)
(* ===================================================================== *)

Module Importer.
Import JS.

(** *** [transformType] *)

Definition isLower (c : ascii) : bool :=
  let n := nat_of_ascii c in ((97 <=? n) && (n <=? 122))%nat.

Definition isUpper (c : ascii) : bool :=
  let n := nat_of_ascii c in ((65 <=? n) && (n <=? 90))%nat.

(** [s.replace(/^prefix/, '')]. *)
Definition dropPrefix (prefix s : string) : string :=
  if String.prefix prefix s
  then String.substring (String.length prefix)
                        (String.length s - String.length prefix) s
  else s.

(** [s.replace(/([a-z])([A-Z])/g, '$1_$2')]: an underscore between a
    lower-case letter and the upper-case letter that follows it. *)
Fixpoint underscore (s : string) : string :=
  match s with
  | String a s' =>
      match s' with
      | String b _ =>
          if isLower a && isUpper b then String a (String "_" (underscore s'))
          else String a (underscore s')
      | EmptyString => s
      end
  | EmptyString => EmptyString
  end.

Definition lowerChar (c : ascii) : ascii :=
  if isUpper c then ascii_of_nat (nat_of_ascii c + 32) else c.

(** [toLowerCase], on ASCII letters. *)
Fixpoint toLowerCase (s : string) : string :=
  match s with
  | String c s' => String (lowerChar c) (toLowerCase s')
  | EmptyString => EmptyString
  end.

Definition transformType (type : string) : string :=
  let cleaned :=
    dropPrefix "HKDataTypeIdentifier"
      (dropPrefix "HKCategoryTypeIdentifier"
         (dropPrefix "HKQuantityTypeIdentifier" type)) in
  let cleaned := underscore cleaned in
  toLowerCase cleaned.

(** *** [parseFloat] *)

Definition startsInfinity (l : list ascii) : bool :=
  bool_decide (take 8 l = list_ascii_of_string "Infinity").

(** The longest prefix that is a decimal literal. *)
Definition decimalPrefix (l : list ascii) : number :=
  if startsInfinity l then Infinity false
  else
    let '(ip, ni, r1) := digits 10 0 0 l in
    let '(fp, nf, r2) :=
      match r1 with
      | c :: r1' => if isChar c "." then digits 10 0 0 r1' else (0, 0%nat, r1)
      | [] => (0, 0%nat, r1)
      end in
    match (ni + nf)%nat with
    | O => NaN
    | S _ =>
        let mantissa := (inject_Z ip + inject_Z fp / inject_Z (10 ^ Z.of_nat nf))%Q in
        let e :=
          match r2 with
          | c :: r =>
              if isChar c "e" || isChar c "E" then
                let '(neg, r') :=
                  match r with
                  | sg :: r'' => if isChar sg "-" then (true, r'')
                                 else if isChar sg "+" then (false, r'')
                                 else (false, r)
                  | [] => (false, r)
                  end in
                match digits 10 0 0 r' with
                | (x, S _, _) => if neg then - x else x
                | _ => 0
                end
              else 0
          | [] => 0
          end in
        Finite (scale mantissa e)
    end.

Definition parseFloat (s : string) : number :=
  rounded
    match trimStart (list_ascii_of_string s) with
    | c :: r =>
        if isChar c "-" then negate (decimalPrefix r)
        else if isChar c "+" then decimalPrefix r
        else decimalPrefix (c :: r)
    | [] => NaN
    end.

(** *** [parseAttributes] *)

(** A character of the class [[\w:]]. *)
Definition isKeyChar (c : ascii) : bool :=
  isLower c || isUpper c || isDigit c || isChar c "_" || isChar c ":".

(** The double quote. *)
Definition quote : ascii := ascii_of_nat 34.

(** Where the scan for the expression of [parseAttributes] stands (a
    key of word characters and colons, an equals sign, a value between
    double quotes): between matches, inside a key, after the [=] of a
    key, or inside the quoted value. *)
Inductive Scan :=
| Idle
| InKey (key : string)
| AfterEq (key : string)
| InValue (key value : string).

Definition snoc (s : string) (c : ascii) : string := s +:+ String c "".

(** The matches of the expression, in order, each stored under its key
    ([attrs[match[1]] = match[2]]). *)
Fixpoint scan (state : Scan) (l : list ascii) (attrs : gmap string string)
  : gmap string string :=
  match l with
  | [] => attrs
  | c :: l' =>
      match state with
      | Idle =>
          if isKeyChar c then scan (InKey (String c "")) l' attrs
          else scan Idle l' attrs
      | InKey key =>
          if isKeyChar c then scan (InKey (snoc key c)) l' attrs
          else if isChar c "=" then scan (AfterEq key) l' attrs
          else scan Idle l' attrs
      | AfterEq key =>
          if isChar c quote then scan (InValue key "") l' attrs
          else if isKeyChar c then scan (InKey (String c "")) l' attrs
          else scan Idle l' attrs
      | InValue key value =>
          if isChar c quote then
            (* a string assigned to [__proto__] leaves the object as it is *)
            if String.eqb key "__proto__" then scan Idle l' attrs
            else scan Idle l' (<[key := value]> attrs)
          else scan (InValue key (snoc value c)) l' attrs
      end
  end.

Definition parseAttributes (tag : string) : gmap string string :=
  scan Idle (list_ascii_of_string tag) ∅.

(** *** [parseExport]: the lines of the export *)

Record BaseMetric := {
  qty : number;
  units : string;
  date : string;
  source : string;
}.

Record MetricData := {
  name : string;
  md_units : string;
  data : list BaseMetric;
}.

Definition QuantityMeasurement := BaseMetric.

Record WorkoutData := {
  id : string;
  w_name : option string;
  start : string;
  end_ : string;
  duration : number;
  distance : option QuantityMeasurement;
  activeEnergyBurned : option QuantityMeasurement;
}.

(** [x || fallback] on an attribute: a missing or empty one gives the
    fallback. *)
Definition orElse (x : option string) (fallback : string) : string :=
  match x with
  | Some s => if String.eqb s "" then fallback else s
  | None => fallback
  end.

Definition present (x : option string) : bool :=
  match x with
  | Some s => negb (String.eqb s "")
  | None => false
  end.

(** An attribute inside a template literal. *)
Definition shown (x : option string) : string := default "undefined" x.

(** [metricsMap]: a Map, whose entries keep their insertion order.
    [has]/[set] of a new entry, then [get(name).data.push(metric)]. *)
Fixpoint pushMetric (name units : string) (metric : BaseMetric)
    (metricsMap : list (string * MetricData)) : list (string * MetricData) :=
  match metricsMap with
  | (k, entry) :: rest =>
      if String.eqb k name
      then (k, {| name := Importer.name entry; md_units := md_units entry;
                  data := data entry ++ [metric] |}) :: rest
      else (k, entry) :: pushMetric name units metric rest
  | [] => [(name, {| name := name; md_units := units; data := [metric] |})]
  end.

(** [d > 24 ? d : d * 60]. *)
Definition minutes (d : number) : number :=
  match d with
  | NaN => NaN
  | Infinity negative => d
  | Finite q => if Qle_bool q 24 then round64 (q * 60) else d
  end.

Record Parsed := {
  metricsMap : list (string * MetricData);
  workouts : list WorkoutData;
}.

Section parseExport.
(** [Date.parse]: [None] is NaN. *)
Variable Date_parse : string → option Z.

Definition measurement (attrs : gmap string string) (key unitKey : string)
    (end_ : string) : option QuantityMeasurement :=
  if present (attrs !! key) then
    let val := parseFloat (default "" (attrs !! key)) in
    if negb (isNaN val) then
      Some {| qty := val;
              units := orElse (attrs !! unitKey) "";
              date := end_;
              source := orElse (attrs !! "sourceName") "Apple Health" |}
    else None
  else None.

(** One turn of the loop over the lines: the state after the line, or
    the message of the error thrown. *)
Definition parseLine (line : string) (st : Parsed) : string + Parsed :=
  let trimmed := string_of_list_ascii (trim (list_ascii_of_string line)) in
  if String.prefix "<Record" trimmed then
    let attrs := parseAttributes trimmed in
    match attrs !! "type" with
    | None => inl "Cannot read properties of undefined (reading 'replace')"
    | Some type =>
        let name := transformType type in
        let units := orElse (attrs !! "unit") "" in
        let qty := match attrs !! "value" with
                   | Some value => parseFloat value
                   | None => NaN
                   end in
        let date := attrs !! "startDate" in
        let source := orElse (attrs !! "sourceName") "Apple Health" in
        if negb (isNaN qty) && present date then
          let metric := {| qty := qty; units := units;
                           date := default "" date; source := source |} in
          inr {| metricsMap := pushMetric name units metric (metricsMap st);
                 workouts := workouts st |}
        else inr st
    end
  else if String.prefix "<Workout" trimmed then
    let attrs := parseAttributes trimmed in
    let start := attrs !! "startDate" in
    let end_ := attrs !! "endDate" in
    if negb (present start) || negb (present end_)
       || negb (bool_decide (is_Some (Date_parse (default "" start))))
       || negb (bool_decide (is_Some (Date_parse (default "" end_))))
    then inr st
    else
      let start := default "" start in
      let end_ := default "" end_ in
      let id := if present (attrs !! "uuid") then default "" (attrs !! "uuid")
                else shown (attrs !! "workoutActivityType") +:+ "_" +:+ start in
      let duration :=
        if present (attrs !! "duration")
        then minutes (parseFloat (default "" (attrs !! "duration")))
        else Finite 0 in
      let activeEnergyBurned :=
        measurement attrs "totalEnergyBurned" "totalEnergyBurned.unit" end_ in
      let distance := measurement attrs "totalDistance" "totalDistance.unit" end_ in
      inr {| metricsMap := metricsMap st;
             workouts := workouts st
                         ++ [{| id := id;
                                w_name := attrs !! "workoutActivityType";
                                start := start; end_ := end_;
                                duration := duration; distance := distance;
                                activeEnergyBurned := activeEnergyBurned |}] |}
  else inr st.

Fixpoint parseLines (lines : list string) (st : Parsed) : string + Parsed :=
  match lines with
  | line :: lines' =>
      match parseLine line st with
      | inr st' => parseLines lines' st'
      | inl e => inl e
      end
  | [] => inr st
  end.

(** What [parseExport] returns for the lines of [export.xml]. *)
Definition parseExport (lines : list string)
  : string + (list MetricData * list WorkoutData) :=
  match parseLines lines {| metricsMap := []; workouts := [] |} with
  | inr st => inr (map snd (metricsMap st), workouts st)
  | inl e => inl e
  end.
End parseExport.

(** *** [main]: posting in chunks *)

Record Payload := {
  p_metrics : list MetricData;
  p_workouts : list WorkoutData;
}.

Definition chunkSize : nat := 1000.

(** [dataPoints.slice(i, j)]. *)
Definition slice {A} (i j : nat) (dataPoints : list A) : list A :=
  take (j - i) (drop i dataPoints).

(** [for (let i = 0; i < dataPoints.length; i += size)], at most [fuel]
    turns. *)
Fixpoint chunkLoop {A} (fuel size i : nat) (dataPoints : list A)
  : list (list A) :=
  match fuel with
  | O => []
  | S fuel' =>
      if (i <? length dataPoints)%nat
      then slice i (i + size) dataPoints
           :: chunkLoop fuel' size (i + size) dataPoints
      else []
  end.

Definition chunks {A} (dataPoints : list A) : list (list A) :=
  chunkLoop (length dataPoints) chunkSize 0 dataPoints.

Definition metricPayloads (metric : MetricData) : list Payload :=
  map (λ chunk,
         {| p_metrics := [{| name := name metric; md_units := md_units metric;
                             data := chunk |}];
            p_workouts := [] |})
      (chunks (data metric)).

(** The requests sent one after the other, from request number [n] on;
    [post k] tells whether request [k] goes through.  The first one that
    does not ends the process. *)
Fixpoint postEach (post : nat → bool) (n : nat) (payloads : list Payload)
  : list Payload * bool :=
  match payloads with
  | payload :: payloads' =>
      if post n then
        let '(sent, ok) := postEach post (S n) payloads' in (payload :: sent, ok)
      else ([payload], false)
  | [] => ([], true)
  end.

(** The requests [main] sends and the exit code of the process. *)
Definition main (env : gmap string string)
    (parsed : list MetricData * list WorkoutData) (post : nat → bool)
  : list Payload * Z :=
  if present (env !! "API_KEY") || present (env !! "WRITE_TOKEN") then
    let '(metrics, workouts) := parsed in
    let '(sent, ok) := postEach post 0 (flat_map metricPayloads metrics) in
    if ok then
      if (0 <? length workouts)%nat then
        let payload := {| p_metrics := []; p_workouts := workouts |} in
        (sent ++ [payload], if post (length sent) then 0 else 1)
      else (sent, 0)
    else (sent, 1)
  else ([], 1).

End Importer.

(* ===================================================================== *)
(** ** Further vocabulary and sample inputs                              *)
(* ===================================================================== *)

Module Coverage.
Import JS Mongo Ingest Statements Examples.

(** The metrics grouped under a key. *)
Fixpoint groupOf (k : string) (groups : list (string * list Doc)) : list Doc :=
  match groups with
  | (k', ms) :: rest => if String.eqb k' k then ms else groupOf k rest
  | [] => []
  end.

(** A request with one metric entry. *)
Definition single (name : string) (records : list Doc) : IngestData :=
  request (Some [{| md_name := name; md_units := "bpm"; md_data := records |}])
          None.



(** A value other than [undefined]. *)
Definition defined (v : value) : option value :=
  match v with
  | VUndefined => None
  | _ => Some v
  end.

(** No upper-case ASCII letter in a string. *)
Definition lowerOnly (s : string) : Prop :=
  Forall (λ c, Importer.isUpper c = false) (list_ascii_of_string s).

(** An attribute as it stands in a tag: a blank, the key, an equals
    sign, the value between double quotes. *)
Definition attribute (kv : string * string) : string :=
  " " +:+ kv.1 +:+ "="
  +:+ String Importer.quote (kv.2 +:+ String Importer.quote "").

Fixpoint attributes (kvs : list (string * string)) : string :=
  match kvs with
  | kv :: kvs' => attribute kv +:+ attributes kvs'
  | [] => ""
  end.

(** A one-line element of the export with its attributes. *)
Definition tag (element : string) (kvs : list (string * string)) : string :=
  "<" +:+ element +:+ attributes kvs +:+ "/>".

(** Only characters of the class of keys. *)
Definition keyOnly (s : string) : Prop :=
  Forall (λ c, Importer.isKeyChar c = true) (list_ascii_of_string s).

(** No double quote. *)
Definition quoteFree (s : string) : Prop :=
  Forall (λ c, isChar c Importer.quote = false) (list_ascii_of_string s).

(** An attribute the expression of [parseAttributes] is written for. *)
Definition wellFormed (kv : string * string) : Prop :=
  kv.1 ≠ "" ∧ kv.1 ≠ "__proto__" ∧ keyOnly kv.1 ∧ quoteFree kv.2.

(** States of the scan outside a quoted value. *)
Definition outside (state : Importer.Scan) : Prop :=
  match state with Importer.InValue _ _ => False | _ => True end.

(** [line.trim()]. *)
Definition trimmed (line : string) : string :=
  string_of_list_ascii (trim (list_ascii_of_string line)).


(** A data point with a number and a date. *)
Definition pointOK (p : Importer.BaseMetric) : Prop :=
  isNaN (Importer.qty p) = false ∧ Importer.date p ≠ "".

(** A measurement of a workout, if there is one: a number, no units, the
    date given. *)
Definition measured (date : string)
    (m : option Importer.QuantityMeasurement) : Prop :=
  ∀ q, m = Some q →
       isNaN (Importer.qty q) = false ∧ Importer.units q = ""
       ∧ Importer.date q = date.

(** A metric of an import: a name without upper-case letters, at least
    one data point, the units of the first one, and only data points
    with a number and a date. *)
Definition metricOK (m : Importer.MetricData) : Prop :=
  lowerOnly (Importer.name m)
  ∧ (∃ p ps, Importer.data m = p :: ps ∧ Importer.md_units m = Importer.units p)
  ∧ Forall pointOK (Importer.data m).

(** An entry of [metricsMap]: a metric under its own name. *)
Definition entryOK (entry : string * Importer.MetricData) : Prop :=
  Importer.name entry.2 = entry.1 ∧ metricOK entry.2.

(** A workout of an import: both dates parse, the id is not empty and
    the measurements are dated at the end of the workout. *)
Definition workoutOK (Date_parse : string → option Z)
    (w : Importer.WorkoutData) : Prop :=
  is_Some (Date_parse (Importer.start w))
  ∧ is_Some (Date_parse (Importer.end_ w))
  ∧ Importer.id w ≠ ""
  ∧ measured (Importer.end_ w) (Importer.distance w)
  ∧ measured (Importer.end_ w) (Importer.activeEnergyBurned w).

(** A state of the scan whose key, if it has one, is made of key
    characters. *)
Definition keyed (state : Importer.Scan) : Prop :=
  match state with
  | Importer.Idle => True
  | Importer.InKey key | Importer.AfterEq key | Importer.InValue key _ =>
      keyOnly key
  end.

(** The first request from number [n] on, among [count] of them, that
    does not go through. *)
Fixpoint firstRefused (post : nat → bool) (n count : nat) : option nat :=
  match count with
  | S count' => if post n then firstRefused post (S n) count' else Some n
  | O => None
  end.

(** The requests of an import, in the order of [main]: the chunks of
    each metric, then the workouts if there are any. *)
Definition requests (parsed : list Importer.MetricData * list Importer.WorkoutData)
  : list Importer.Payload :=
  flat_map Importer.metricPayloads parsed.1
  ++ (if (0 <? length parsed.2)%nat
      then [{| Importer.p_metrics := []; Importer.p_workouts := parsed.2 |}]
      else []).

(** The data points a request carries. *)
Definition pointsOf (payload : Importer.Payload) : list Importer.BaseMetric :=
  flat_map Importer.data (Importer.p_metrics payload).

(** Lines of an export: two step counts, a heart rate, a record without
    a value, a workout and a workout without an end. *)
Definition export : list string :=
  [ "<HealthData>";
    tag "Record" [("type", "HKQuantityTypeIdentifierStepCount");
                  ("unit", "count"); ("value", "12");
                  ("startDate", "2024-01-15 08:00:00")];
    tag "Record" [("type", "HKQuantityTypeIdentifierHeartRate");
                  ("unit", "count/min"); ("value", "61.5");
                  ("startDate", "2024-01-15 08:00:30")];
    tag "Record" [("type", "HKQuantityTypeIdentifierStepCount");
                  ("unit", "steps"); ("value", "30");
                  ("startDate", "2024-01-15 08:01:00")];
    tag "Record" [("type", "HKCategoryTypeIdentifierSleepAnalysis");
                  ("startDate", "2024-01-15 08:01:00")];
    tag "Workout" [("workoutActivityType", "HKWorkoutActivityTypeRunning");
                   ("duration", "31.5"); ("totalDistance", "5.2");
                   ("totalEnergyBurned", "310");
                   ("startDate", "2024-01-15 07:00:00");
                   ("endDate", "2024-01-15 07:31:30")];
    tag "Workout" [("workoutActivityType", "HKWorkoutActivityTypeWalking");
                   ("startDate", "2024-01-15 09:00:00")];
    "</HealthData>" ].

(** A mapped workout read as a raw one again. *)
Definition asRaw (w : Workout.MappedWorkout) : Workout.WorkoutData :=
  {| Workout.id := Workout.workoutId w; Workout.rest := Workout.fields w |}.

End Coverage.

(* ===================================================================== *)
(** * Properties                                                         *)
(* ===================================================================== *)

Import JS Utils Statements Examples.

(** ** [Number] on strings *)

Ltac by_ascii c :=
  destruct c as [[] [] [] [] [] [] [] []]; try discriminate; try reflexivity.

(** A decidable proposition, settled by evaluation. *)
Ltac decided := apply (bool_decide_unpack _); vm_compute; exact I.


Lemma digit_plain c v : digitIn 10 c = Some v → plainDigit c.
Proof. by_ascii c; intros _; repeat split. Qed.


Lemma trimStart_keep c l : isWhiteSpace c = false → trimStart (c :: l) = c :: l.
Proof. intros H. simpl. by rewrite H. Qed.

(** Trimming leaves alone a string that neither starts nor ends with
    white space. *)
Lemma trim_keep c l x :
  isWhiteSpace c = false → isWhiteSpace x = false →
  last (c :: l) = Some x → trim (c :: l) = c :: l.
Proof.
  intros Hc Hx Hlast. unfold trim. rewrite (trimStart_keep c l Hc).
  destruct (last_Some (c :: l) x) as [[l' Hl'] _]; [done|].
  rewrite Hl', rev_unit, (trimStart_keep x _ Hx).
  simpl. by rewrite rev_involutive.
Qed.


Lemma digits_run ds : ∀ acc n rest,
  Forall isDecimal ds →
  match rest with c :: _ => digitIn 10 c = None | [] => True end →
  digits 10 acc n (ds ++ rest) = (digitsValue acc ds, (n + length ds)%nat, rest).
Proof.
  induction ds as [|d ds IH]; intros acc n rest Hds Hrest; simpl.
  - rewrite Nat.add_0_r. destruct rest as [|c rest]; simpl; [done|].
    by rewrite Hrest.
  - apply Forall_cons in Hds as [[v Hv] Hds]. rewrite Hv. simpl.
    rewrite (IH _ _ rest Hds Hrest). f_equal. f_equal. lia.
Qed.




(** Four digits followed by a separator are not a numeric literal. *)
Lemma StringToNumber_date_like y1 y2 y3 y4 sep rest x :
  Forall isDecimal [y1; y2; y3; y4] →
  sep = "-"%char ∨ sep = "/"%char →
  last (y1 :: y2 :: y3 :: y4 :: sep :: rest) = Some x → isWhiteSpace x = false →
  StringToNumber (string_of_list_ascii (y1 :: y2 :: y3 :: y4 :: sep :: rest)) = NaN.
Proof.
  intros Hds Hsep Hlast Hx. unfold StringToNumber, literalValue.
  rewrite list_ascii_of_string_of_list_ascii.
  pose proof Hds as Hds'. apply Forall_cons in Hds' as [[v1 H1] Htl].
  apply Forall_cons in Htl as [[v2 H2] _].
  destruct (digit_plain _ _ H1) as (Hw & Hminus & Hplus & _ & _ & _ & _ & _ & _ & _ & _ & _ & HI).
  destruct (digit_plain _ _ H2) as (_ & _ & _ & _ & _ & _ & Hx1 & Hx2 & Hx3 & Hx4 & Hx5 & Hx6 & _).
  rewrite (trim_keep _ _ x Hw Hx Hlast).
  assert (nonDecimal (y1 :: y2 :: y3 :: y4 :: sep :: rest) = None) as ->.
  { unfold nonDecimal. rewrite Hx1, Hx2, Hx3, Hx4, Hx5, Hx6. simpl.
    by destruct (isChar y1 "0"). }
  rewrite Hminus, Hplus. unfold unsignedDecimal.
  destruct (decide _) as [Heq|_].
  { injection Heq as -> _. done. }
  pose proof (digits_run [y1; y2; y3; y4] 0 0%nat (sep :: rest) Hds) as Hrun.
  simpl app in Hrun. rewrite Hrun; [|by destruct Hsep as [-> | ->]].
  by destruct Hsep as [-> | ->].
Qed.

(** ** [parseDate] *)

Lemma num2_inv a b v :
  num2 a b = Some v →
  ∃ x y, digitIn 10 a = Some x ∧ digitIn 10 b = Some y ∧ v = 10 * x + y.
Proof.
  unfold num2. destruct (digitIn 10 a) as [x|]; [|done].
  destruct (digitIn 10 b) as [y|]; [|done]. simpl. intros [= <-]. eauto.
Qed.

Lemma num2_decimal a b v : num2 a b = Some v → isDecimal a ∧ isDecimal b.
Proof. intros (x & y & Ha & Hb & _)%num2_inv. split; by eexists. Qed.

Lemma num4_decimal a b c d v :
  num4 a b c d = Some v → Forall isDecimal [a; b; c; d].
Proof.
  unfold num4. destruct (num2 a b) as [x|] eqn:Hx; [|done].
  destruct (num2 c d) as [y|] eqn:Hy; [|done]. intros _.
  apply num2_decimal in Hx as [? ?]. apply num2_decimal in Hy as [? ?].
  by repeat constructor.
Qed.

Lemma includes_head s sub : String.prefix sub s = true → includes s sub = true.
Proof. intros H. destruct s; simpl in *; by rewrite H. Qed.

Lemma includes_elem (c : ascii) l :
  c ∈ l → includes (string_of_list_ascii l) (String c "") = true.
Proof.
  induction 1 as [x l|x y l _ IH]; simpl.
  - destruct (ascii_dec x x); [|done]. by destruct (string_of_list_ascii l).
  - rewrite IH. destruct (ascii_dec x y); [|done].
    by destruct (string_of_list_ascii l).
Qed.


(** A string [Number] does not read, holding a slash or a hyphen,
    resolves to what the engine's date parser makes of it. *)
Lemma parseDate_string host s :
  s ≠ "" → StringToNumber s = NaN →
  includes s "/" || includes s "-" = true →
  parseDate host (Str s) = validated (Date_parse host s).
Proof.
  intros Hs Hnan Hinc. unfold parseDate. simpl.
  destruct (String.eqb_spec s ""); [done|]. simpl. rewrite Hnan. simpl.
  unfold isValidDate. simpl.
  destruct (includes s "/"); simpl in *.
  - by destruct (Date_parse host s).
  - rewrite Hinc. by destruct (Date_parse host s).
Qed.

(** Neither a slash nor a hyphen: no value. *)
Lemma parseDate_other host s :
  StringToNumber s = NaN →
  includes s "/" = false → includes s "-" = false →
  parseDate host (Str s) = None.
Proof.
  intros Hnan H1 H2. unfold parseDate. simpl.
  destruct (negb (negb (String.eqb s ""))); [done|].
  by rewrite Hnan, H1, H2.
Qed.


Section formats.
Variable host : Host.
Variables y1 y2 y3 y4 m1 m2 d1 d2 : ascii.
Variables y m d day : Z.
Hypothesis Hy : num4 y1 y2 y3 y4 = Some y.
Hypothesis Hm : num2 m1 m2 = Some m.
Hypothesis Hd : num2 d1 d2 = Some d.
Hypothesis Hday : MakeDate y m d = Some day.

Lemma date_like_NaN sep rest x :
  sep = "-"%char ∨ sep = "/"%char →
  last (dateChars sep y1 y2 y3 y4 m1 m2 d1 d2 ++ rest) = Some x →
  isWhiteSpace x = false →
  StringToNumber (string_of_list_ascii
                    (dateChars sep y1 y2 y3 y4 m1 m2 d1 d2 ++ rest)) = NaN.
Proof.
  intros Hsep Hlast Hx.
  apply (StringToNumber_date_like y1 y2 y3 y4 sep _ x);
    eauto using num4_decimal.
Qed.

Lemma date_like_parse sep rest x :
  sep = "-"%char ∨ sep = "/"%char →
  last (dateChars sep y1 y2 y3 y4 m1 m2 d1 d2 ++ rest) = Some x →
  isWhiteSpace x = false →
  let s := string_of_list_ascii (dateChars sep y1 y2 y3 y4 m1 m2 d1 d2 ++ rest) in
  parseDate host (Str s) = validated (Date_parse host s).
Proof.
  intros Hsep Hlast Hx s. subst s. apply parseDate_string.
  - done.
  - by apply (date_like_NaN sep rest x).
  - destruct Hsep as [-> | ->].
    + rewrite (includes_elem "-"), orb_true_r; [done|]. set_solver.
    + rewrite (includes_elem "/"); [done|]. set_solver.
Qed.

Lemma knownForm_date sep rest :
  knownForm (localOffset host) (dateChars sep y1 y2 y3 y4 m1 m2 d1 d2 ++ rest)
  = if isChar sep "-" && isChar sep "-" then
      match rest with
      | [] => Some (Some day)
      | sp :: rest' =>
          if isChar sp "T" then
            '(time, z) ← isoTime rest';
            Some (Some (timeValue (localOffset host) (day + time) z))
          else if isChar sp " " && (100 <=? y) then
            match rest' with
            | [h1; h2; c1; mi1; mi2; c2; se1; se2] =>
                if isChar c1 ":" && isChar c2 ":" then
                  h ← num2 h1 h2; mi ← num2 mi1 mi2; se ← num2 se1 se2;
                  time ← MakeTime h mi se;
                  Some (Some (UTC (localOffset host) (day + time)))
                else None
            | _ => None
            end
          else None
      end
    else if isChar sep "/" && isChar sep "/" && (100 <=? y) then
      match rest with
      | [] => Some (Some (UTC (localOffset host) day))
      | _ => None
      end
    else None.
Proof.
  unfold knownForm, dateChars. cbn [app existsb].
  pose proof (num4_decimal _ _ _ _ _ Hy) as Hdec.
  apply Forall_cons in Hdec as [[v Hv] _].
  unfold isDigit at 1. rewrite Hv. cbn [orb negb].
  by rewrite Hy, Hm, Hd; cbn [mbind option_bind]; rewrite Hday.
Qed.




(** The ISO form with a time, and with [Z] for UTC. *)
Lemma parseDate_iso rest time z :
  isoTime rest = Some (time, z) →
  last ("T"%char :: rest) = Some (default "T"%char (last rest)) →
  isWhiteSpace (default "T"%char (last rest)) = false →
  parseDate host
    (Str (string_of_list_ascii (dateChars "-" y1 y2 y3 y4 m1 m2 d1 d2
                                ++ "T"%char :: rest)))
  = Some (DateOf (timeValue (localOffset host) (day + time) z)).
Proof.
  intros Hiso Hlast Hw.
  rewrite (date_like_parse "-" _ (default "T"%char (last rest))
             (or_introl eq_refl)); [|done..].
  unfold Date_parse. rewrite list_ascii_of_string_of_list_ascii.
  rewrite knownForm_date. cbn. by rewrite Hiso.
Qed.
End formats.






(** A record whose timestamp resolves to no value is skipped, and the
    records around it are still resolved. *)
Lemma resolveRecords_skip host before r after :
  parseDate host (MetricSpec.dateInputOf (r !! "date")) = None →
  MetricSpec.resolveRecords host (before ++ r :: after)
  = MetricSpec.resolveRecords host before
    ++ MetricSpec.resolveRecords host after.
Proof.
  intros H. unfold MetricSpec.resolveRecords.
  rewrite omap_app. f_equal. simpl. by rewrite H.
Qed.



(** C10: [parseDate] answers null for every falsy input: the number 0,
    the empty string and undefined.  The epoch timestamp 0 is a valid
    time value ([new Date(0)] is a valid date) and is nevertheless
    treated as invalid, so a record timestamped with it is dropped. *)
Theorem parseDate_falsy_input_is_null (host : Host) :
  parseDate host (Num (Finite 0)) = None
  ∧ parseDate host (Str "") = None
  ∧ parseDate host Undefined = None
  ∧ (∀ x, truthy (toValue x) = false → parseDate host x = None)
  ∧ (newDate host (VNumber (Finite 0)) = DateOf 0
     ∧ isValidDate (DateOf 0) = true)
  ∧ (∀ before r after,
       r !! "date" = Some (VNumber (Finite 0)) →
       MetricSpec.resolveRecords host (before ++ r :: after)
       = MetricSpec.resolveRecords host before
         ++ MetricSpec.resolveRecords host after).
Proof.
  repeat split; try reflexivity.
  - intros x Hx. unfold parseDate. by rewrite Hx.
  - intros before r after Hr. apply resolveRecords_skip. by rewrite Hr.
Qed.

Lemma parseDate_falsy_input_is_null_witness :
  parseDate cet (Num (Finite (0 # 7))) = None
  ∧ parseDate cet (Num NaN) = None
  ∧ MetricSpec.resolveRecords cet
      [record "watch" (VNumber (Finite 0)) 70;
       record "watch" (VNumber (Finite 1)) 71]
    = [record "watch" (VDate (DateOf 1)) 71].
Proof.
  destruct (parseDate_falsy_input_is_null cet) as (_ & _ & _ & Hfalsy & _ & Hskip).
  split; [exact (Hfalsy (Num (Finite (0 # 7))) eq_refl)|].
  split; [exact (Hfalsy (Num NaN) eq_refl)|].
  exact (Hskip [] (record "watch" (VNumber (Finite 0)) 70)
               [record "watch" (VNumber (Finite 1)) 71] eq_refl).
Defined.

(** ** [mapWorkoutData]: heart-rate summary *)

Import Workout.

Lemma max2_fold qs : ∀ a,
  ∃ m, foldl max2 (Finite a) (map Finite qs) = Finite m
       ∧ (m = a ∨ m ∈ qs) ∧ (a <= m)%Q ∧ ∀ x, x ∈ qs → (x <= m)%Q.
Proof.
  induction qs as [|q qs IH]; intros a; simpl.
  - exists a. split; [done|]. split; [by left|]. split; [apply Qle_refl|].
    intros x Hx. by apply elem_of_nil in Hx.
  - destruct (Qle_bool a q) eqn:Hle.
    + apply Qle_bool_iff in Hle.
      destruct (IH q) as (m & Hm & Hin & Hqm & Hall). exists m.
      split; [done|]. split.
      { right. destruct Hin as [-> | Hin]; [left|by right]. }
      split; [by eapply Qle_trans|].
      intros x [-> | Hx]%elem_of_cons; auto.
    + assert (q <= a)%Q as Hqa.
      { apply Qnot_lt_le. intros Hlt. apply Qlt_le_weak in Hlt.
        apply Qle_bool_iff in Hlt. congruence. }
      destruct (IH a) as (m & Hm & Hin & Ham & Hall). exists m.
      split; [done|]. split.
      { destruct Hin as [-> | Hin]; [by left|right; by right]. }
      split; [done|].
      intros x [-> | Hx]%elem_of_cons; [by eapply Qle_trans|auto].
Qed.

(** [Math.max] over finite numbers is the greatest of them. *)
Lemma Math_max_maximum q qs :
  ∃ m, Math_max (map Finite (q :: qs)) = Finite m ∧ isMaximum m (q :: qs).
Proof.
  unfold Math_max. simpl.
  destruct (max2_fold qs q) as (m & Hm & Hin & Hqm & Hall).
  exists m. split; [done|]. split.
  - destruct Hin as [-> | Hin]; [left|by right].
  - intros x [-> | Hx]%elem_of_cons; auto.
Qed.

Lemma round2_rounded q : roundedTo2 (round2 q) q.
Proof.
  unfold roundedTo2, round2.
  set (n := Qfloor (Qabs q * 100 + (1 # 2))).
  pose proof (Qfloor_le (Qabs q * 100 + (1 # 2))) as Hlo.
  pose proof (Qlt_floor (Qabs q * 100 + (1 # 2))) as Hhi.
  fold n in Hlo, Hhi. rewrite inject_Z_plus in Hhi.
  change (inject_Z 1) with 1%Q in Hhi. clearbody n.
  assert (inject_Z n / 100 == inject_Z n * (1 # 100))%Q as Hdiv by field.
  destruct (Qle_bool 0 q) eqn:Hsign.
  - apply Qle_bool_iff in Hsign. rewrite (Qabs_pos q Hsign) in Hlo, Hhi.
    split; [by exists n|]. apply Qabs_Qle_condition. rewrite Hdiv. split; lra.
  - assert (q < 0)%Q as Hneg.
    { apply Qnot_le_lt. intros Hle. apply Qle_bool_iff in Hle. congruence. }
    rewrite (Qabs_neg q) in Hlo, Hhi by lra.
    split.
    + exists (- n). rewrite inject_Z_opp. field.
    + apply Qabs_Qle_condition. rewrite Hdiv. split; lra.
Qed.

Lemma convertHeartRate_Max host l :
  map Max (map (convertHeartRate host) l) = map Max l.
Proof. induction l as [|hr l IH]; simpl; [done|by rewrite IH]. Qed.

Lemma sum_Avg host l : ∀ a,
  foldl (λ sum hr, add sum (Avg hr)) a (map (convertHeartRate host) l)
  = foldl (λ sum x, add sum x) a (map Avg l).
Proof. induction l as [|hr l IH]; intros a; simpl; [done|apply IH]. Qed.

Section heart_rate.
Variable host : Host.
Variable data : WorkoutData.
Variable hr : list IHeartRate.
Hypothesis Hseries : heartRateData (rest data) = Some hr.

Let mapped := fields (mapWorkoutData host data).

(** X1: without a supplied value, the maximum of the samples' [Max]. *)
Lemma maxHeartRate_derived q qs :
  map Max hr = map Finite (q :: qs) →
  maxHeartRate (rest data) = None →
  ∃ m, maxHeartRate mapped = Some (Finite m) ∧ isMaximum m (q :: qs).
Proof.
  intros Hmax Habsent.
  destruct (Math_max_maximum q qs) as (m & Hm & Hismax).
  exists m. split; [|done].
  subst mapped. unfold mapWorkoutData. cbn [fields maxHeartRate].
  rewrite Habsent, Hseries. cbn [fmap option_fmap option_map default missing].
  rewrite length_map.
  destruct hr as [|h hr']; [discriminate Hmax|].
  cbn [length Nat.ltb Nat.leb andb]. unfold Datatypes.id.
  by rewrite convertHeartRate_Max, Hmax, Hm.
Qed.

(** X2: without a supplied value, the mean of the samples' [Avg] as the
    code computes it (the sum from left to right, divided by the count,
    each step rounded to binary64), printed with two decimals and read
    back.  The decimal printed is within 1/200 of that mean, and the
    value stored is the binary64 number nearest to the decimal. *)
Lemma avgHeartRate_derived a :
  hr ≠ [] →
  avgHeartRate (rest data) = None →
  divLength (foldl (λ sum x, add sum x) (Finite 0) (map Avg hr)) (length hr)
  = Finite a →
  (Qabs a < inject_Z (10 ^ 21))%Q →
  ∃ r, roundedTo2 r a ∧ avgHeartRate mapped = Some (round64 r).
Proof.
  intros Hne Habsent Hmean Hsmall.
  exists (round2 a). split; [apply round2_rounded|].
  subst mapped. unfold mapWorkoutData. cbn [fields avgHeartRate].
  rewrite Habsent, Hseries. cbn [fmap option_fmap option_map default missing].
  rewrite !length_map.
  destruct hr as [|h hr'] eqn:Hhr; [done|]. rewrite <- Hhr in *.
  assert ((0 <? length hr)%nat = true) as ->
    by (rewrite Hhr; reflexivity).
  cbn [andb]. unfold Datatypes.id.
  rewrite sum_Avg, length_map, Hmean. cbn [toFixed2].
  destruct (Qle_bool _ _) eqn:Hbig; [|done].
  apply Qle_bool_iff in Hbig. exfalso. by eapply Qlt_not_le.
Qed.

(** X3: a supplied value other than zero is kept. *)
Lemma heartRate_supplied_kept :
  (∀ x, maxHeartRate (rest data) = Some x → number_truthy x = true →
        maxHeartRate mapped = Some x)
  ∧ (∀ x, avgHeartRate (rest data) = Some x → number_truthy x = true →
          avgHeartRate mapped = Some x).
Proof.
  subst mapped. unfold mapWorkoutData. cbn [fields maxHeartRate avgHeartRate].
  split; intros x -> Hx; cbn [missing]; by rewrite Hx.
Qed.
End heart_rate.

(** X4: the heart-rate series of the specification has maximum 95 and
    average 72.00. *)
Lemma heartRate_spec_series host :
  let mapped :=
    fields (mapWorkoutData host
              (run (Some [sample 60 70 90; sample 62 74 95]) None None None)) in
  maxHeartRate mapped = Some (Finite 95)
  ∧ avgHeartRate mapped = Some (Finite (7200 # 100))
  ∧ (7200 # 100 == 72)%Q.
Proof. repeat split. Qed.

Lemma maxHeartRate_derived_witness :
  ∃ m, maxHeartRate (fields (mapWorkoutData cet
                               (run (Some [sample 60 70 90; sample 62 74 95])
                                    None None None)))
       = Some (Finite m)
       ∧ isMaximum m [inject_Z 90; inject_Z 95].
Proof.
  exact (maxHeartRate_derived cet
           (run (Some [sample 60 70 90; sample 62 74 95]) None None None)
           [sample 60 70 90; sample 62 74 95] eq_refl
           (inject_Z 90) [inject_Z 95] eq_refl eq_refl).
Defined.

Lemma avgHeartRate_derived_witness :
  ∃ r, roundedTo2 r (144 # 2)
       ∧ avgHeartRate (fields (mapWorkoutData cet
                                 (run (Some [sample 60 70 90; sample 62 74 95])
                                      None None None)))
         = Some (round64 r).
Proof.
  refine (avgHeartRate_derived cet
            (run (Some [sample 60 70 90; sample 62 74 95]) None None None)
            [sample 60 70 90; sample 62 74 95] eq_refl (144 # 2) _
            eq_refl _ eq_refl).
  - discriminate.
  - by vm_compute.
Defined.

Lemma heartRate_supplied_kept_witness :
  let mapped :=
    fields (mapWorkoutData cet
              (run (Some [sample 60 70 90; sample 62 74 95])
                   (Some (Finite 180)) (Some (Finite 140)) None)) in
  maxHeartRate mapped = Some (Finite 180)
  ∧ avgHeartRate mapped = Some (Finite 140).
Proof.
  destruct (heartRate_supplied_kept cet
              (run (Some [sample 60 70 90; sample 62 74 95])
                   (Some (Finite 180)) (Some (Finite 140)) None))
    as [Hmax Havg].
  split; [exact (Hmax _ eq_refl eq_refl)|exact (Havg _ eq_refl eq_refl)].
Defined.

(** C4: a supplied [maxHeartRate] or [avgHeartRate] is meant never to be
    overwritten.  On a workout that supplies the value 0 for both, next
    to a non-empty series, [mapWorkoutData] replaces both with the
    derived values. *)
Theorem heartRate_supplied_zero_overwritten host :
  let raw := run (Some [sample 60 70 90; sample 62 74 95])
                 (Some (Finite 0)) (Some (Finite 0)) None in
  let mapped := fields (mapWorkoutData host raw) in
  maxHeartRate (rest raw) = Some (Finite 0)
  ∧ avgHeartRate (rest raw) = Some (Finite 0)
  ∧ maxHeartRate mapped = Some (Finite 95)
  ∧ avgHeartRate mapped = Some (Finite (7200 # 100)).
Proof. repeat split. Qed.

(** ** [mapRoute] and [routeSchema] *)

(** The schema accepts a route only with a non-empty [locations]. *)
Lemma routeSchema_nonempty r :
  routeSchema_validate r = true → ∃ p ps, locations r = Some (p :: ps).
Proof.
  unfold routeSchema_validate, routeSchema_validator.
  destruct (locations r) as [[|p ps]|]; [done| |done]. eauto.
Qed.

(** C9: a raw workout with a non-empty location sequence yields a route
    with the workout's identifier and the same points, their timestamps
    turned into dates; with an empty sequence no route is produced; and
    a route that is produced, or that the schema accepts, has a non-empty
    [locations]. *)
Theorem route_extraction (host : Host) (data : WorkoutData) :
  (∀ loc locs, route (rest data) = Some (loc :: locs) →
     ∃ r, extractRoute host data = Some r
          ∧ r = mapRoute host data
          ∧ r_workoutId r = id data
          ∧ locations r = Some (map (mapLocation host) (loc :: locs))
          ∧ Forall2 (λ raw p, timestamp p = VDate (newDate host (timestamp raw))
                              ∧ latitude p = latitude raw
                              ∧ longitude p = longitude raw)
                    (loc :: locs) (map (mapLocation host) (loc :: locs)))
  ∧ (route (rest data) = Some [] →
       extractRoute host data = None
       ∧ routeSchema_validate (mapRoute host data) = false)
  ∧ (∀ r, extractRoute host data = Some r →
       routeSchema_validate r = true ∧ ∃ p ps, locations r = Some (p :: ps))
  ∧ (∀ r, routeSchema_validate r = true → ∃ p ps, locations r = Some (p :: ps)).
Proof.
  split; [|split; [|split]].
  - intros loc locs Hroute. exists (mapRoute host data).
    unfold extractRoute, mapRoute. rewrite Hroute. repeat split.
    apply Forall2_fmap_r, Forall_Forall2_diag, Forall_forall. by intros.
  - intros Hroute. unfold extractRoute, mapRoute, routeSchema_validate.
    by rewrite Hroute.
  - intros r. unfold extractRoute.
    destruct (route (rest data)) as [[|loc locs]|] eqn:Hroute; [done| |done].
    intros [= <-].
    assert (routeSchema_validate (mapRoute host data) = true) as Hv.
    { unfold routeSchema_validate, mapRoute. by rewrite Hroute. }
    split; [done|by apply routeSchema_nonempty].
  - apply routeSchema_nonempty.
Qed.

Lemma route_extraction_witness :
  let raw := run None None None
               (Some [point 48 11 (VString "2024-01-15 08:30:00");
                      point 48 12 (VNumber (Finite 1705300000000))]) in
  extractRoute cet raw
  = Some {| r_workoutId := "run-1";
            locations := Some [point 48 11 (VDate (DateOf 1705303800000));
                               point 48 12 (VDate (DateOf 1705300000000))] |}
  ∧ extractRoute cet (run None None None (Some [])) = None.
Proof.
  split.
  - destruct (route_extraction cet
                (run None None None
                   (Some [point 48 11 (VString "2024-01-15 08:30:00");
                          point 48 12 (VNumber (Finite 1705300000000))])))
      as (H & _).
    destruct (H _ _ eq_refl) as (r & -> & -> & _). reflexivity.
  - destruct (route_extraction cet (run None None None (Some []))) as (_ & H & _).
    exact (proj1 (H eq_refl)).
Defined.

(** ** [saveMetrics] and [ingestData]: responses *)

Import Mongo Ingest Ingester.

Section ingestion.
Variables BLOOD_PRESSURE HEART_RATE SLEEP_ANALYSIS : string.
Variable mapMetric : MetricData → list Doc.
Variable fault : Fault.
Variable saveWorkouts : IngestData → State → (string + IngestResponse) * State.

Let saveMetrics :=
  Metrics.saveMetrics BLOOD_PRESSURE HEART_RATE SLEEP_ANALYSIS mapMetric fault.
Let ingestData :=
  Ingester.ingestData BLOOD_PRESSURE HEART_RATE SLEEP_ANALYSIS mapMetric fault
    saveWorkouts.

(** [saveMetrics] always reports the [metrics] group, and only it. *)
Lemma saveMetrics_reports_metrics ingest st :
  ∃ o, (saveMetrics ingest st).1 = {| r_metrics := Some o; r_workouts := None |}.
Proof.
  subst saveMetrics. unfold Metrics.saveMetrics.
  destruct (data ingest) as [payload|]; [|by eexists].
  destruct (metrics payload) as [[|metric metricsData]|]; [by eexists| |by eexists].
  destruct (Metrics.metricsByType _ _) as [groups|]; [|by eexists].
  destruct (Metrics.saveOperations _ _ _ _ _ _) as [results st'].
  destruct (Metrics.rejection results); by eexists.
Qed.

Lemma status_of_values (os : list Outcome) :
  os ≠ [] →
  let hasErrors := existsb (λ r, negb (success r)) os in
  let allFailed := forallb (λ r, negb (success r)) os in
  ((∀ o, o ∈ os → success o = true) → allFailed = false ∧ hasErrors = false)
  ∧ ((∃ o, o ∈ os ∧ success o = false) ∧ (∃ o, o ∈ os ∧ success o = true) →
       allFailed = false ∧ hasErrors = true)
  ∧ ((∀ o, o ∈ os → success o = false) → allFailed = true).
Proof.
  intros Hne hasErrors allFailed. subst hasErrors allFailed.
  split; [|split].
  - intros Hall. split.
    + destruct os as [|o os]; [done|]. simpl.
      rewrite (Hall o); [done|by left].
    + apply not_true_is_false. intros (o & Ho & Hs)%existsb_exists.
      apply list_elem_of_In in Ho. rewrite (Hall o Ho) in Hs. done.
  - intros [(o1 & Ho1 & Hs1) (o2 & Ho2 & Hs2)]. split.
    + apply not_true_is_false. intros Hall.
      rewrite forallb_forall in Hall. apply list_elem_of_In in Ho2.
      specialize (Hall o2 Ho2). rewrite Hs2 in Hall. done.
    + apply existsb_exists. exists o1. split; [by apply list_elem_of_In|].
      by rewrite Hs1.
  - intros Hall. apply forallb_forall. intros o Ho%list_elem_of_In.
    by rewrite (Hall o Ho).
Qed.

(** C5: a request without a body fails at once: the answer is the
    top-level [{error, message}] object with status 500, whatever the
    normalizer, the store and [saveWorkouts] would have done, and neither
    the collections nor the log of bulk writes change. *)
Theorem ingestData_missing_body st :
  ingestData None st
  = ({| status := 500;
        json := TopLevel "Failed to process request" "No data provided" |}, st).
Proof. reflexivity. Qed.

(** C2: with a body present, the status is 200 when every group of the
    merged response succeeded, 207 when one failed and one succeeded, and
    500 when every group failed; the merged response always has a group.
    Without a body the status is 500 and the answer is the top-level
    error object, not a grouped response. *)
Theorem ingestData_status ingest st :
  (match json (ingestData (Some ingest) st).1 with
   | Grouped r =>
       values r ≠ []
       ∧ (allSucceed r → status (ingestData (Some ingest) st).1 = 200)
       ∧ (partly r → status (ingestData (Some ingest) st).1 = 207)
       ∧ (allFail r → status (ingestData (Some ingest) st).1 = 500)
   | TopLevel _ _ =>
       status (ingestData (Some ingest) st).1 = 500
       ∧ ∃ msg st', saveWorkouts ingest (saveMetrics ingest st).2 = (inl msg, st')
   end)
  ∧ status (ingestData None st).1 = 500
  ∧ json (ingestData None st).1
    = TopLevel "Failed to process request" "No data provided".
Proof.
  split; [|done].
  subst ingestData. unfold Ingester.ingestData.
  fold saveMetrics.
  destruct (saveMetrics_reports_metrics ingest st) as [o Ho].
  destruct (saveMetrics ingest st) as [metricsResponse st1] eqn:Hm.
  simpl in Ho. subst metricsResponse.
  replace (Ingester.saveMetrics BLOOD_PRESSURE HEART_RATE SLEEP_ANALYSIS
             mapMetric fault ingest st)
    with (saveMetrics ingest st) by done.
  rewrite Hm. cbn [snd].
  destruct (saveWorkouts ingest st1) as [[msg|workoutsResponse] st2] eqn:Hw.
  { cbn. eauto. }
  set (response := spread _ workoutsResponse).
  assert (values response ≠ []) as Hne.
  { subst response. unfold values, spread. cbn.
    by destruct (r_metrics workoutsResponse). }
  destruct (status_of_values (values response) Hne) as (H200 & H207 & H500).
  destruct (forallb _ (values response)) eqn:Hall; cbn.
  - split; [done|]. split; [|split]; [| |done].
    + intros Hs. by destruct (H200 Hs).
    + intros Hs. by destruct (H207 Hs).
  - split; [done|]. split; [|split].
    + intros Hs. destruct (H200 Hs) as [_ ->]. done.
    + intros Hs. destruct (H207 Hs) as [_ ->]. done.
    + intros Hs. by specialize (H500 Hs).
Qed.

End ingestion.

Ltac outcome_in := apply list_elem_of_In; simpl; auto.
Ltac each_outcome Ho :=
  apply list_elem_of_In in Ho; simpl in Ho;
  repeat (destruct Ho as [<- | Ho]; [reflexivity|]); destruct Ho.

Lemma ingestData_status_witness :
  status (Examples.ingestData noFault (Some morning) emptyStore).1 = 200
  ∧ status (Examples.ingestData (failing WorkoutModel) (Some morning) emptyStore).1 = 207
  ∧ status (Examples.ingestData down (Some morning) emptyStore).1 = 500.
Proof.
  split; [|split].
  - pose proof (ingestData_status "blood_pressure" "heart_rate" "sleep_analysis"
                  mapTimestamps noFault (Workouts.saveWorkouts cet noFault)
                  morning emptyStore) as [H _].
    change (json _) with
      (Grouped {| r_metrics := Some (succeeded "2 metrics saved successfully");
                  r_workouts := Some (succeeded "workouts saved") |}) in H.
    destruct H as (_ & H200 & _). apply H200. intros o Ho. each_outcome Ho.
  - pose proof (ingestData_status "blood_pressure" "heart_rate" "sleep_analysis"
                  mapTimestamps (failing WorkoutModel)
                  (Workouts.saveWorkouts cet (failing WorkoutModel))
                  morning emptyStore) as [H _].
    change (json _) with
      (Grouped {| r_metrics := Some (succeeded "2 metrics saved successfully");
                  r_workouts := Some refused |}) in H.
    destruct H as (_ & _ & H207 & _). apply H207. split.
    + exists refused. split; [outcome_in|done].
    + exists (succeeded "2 metrics saved successfully"). split; [outcome_in|done].
  - pose proof (ingestData_status "blood_pressure" "heart_rate" "sleep_analysis"
                  mapTimestamps down (Workouts.saveWorkouts cet down)
                  morning emptyStore) as [H _].
    change (json _) with
      (Grouped {| r_metrics := Some refused; r_workouts := Some refused |}) in H.
    destruct H as (_ & _ & _ & H500). apply H500. intros o Ho. each_outcome Ho.
Defined.



(** ** Upserts of metrics *)

Lemma matches_upsertOf (m d : Doc) :
  matches (op_filter (Metrics.upsertOf m)) d = bool_decide (key d = key m).
Proof.
  unfold matches, key. simpl.
  destruct (decide (d !! "source" = m !! "source")) as [Hs|Hs];
    destruct (decide (d !! "date" = m !! "date")) as [Hd|Hd];
    rewrite ?(bool_decide_eq_true_2 _ Hs), ?(bool_decide_eq_false_2 _ Hs),
            ?(bool_decide_eq_true_2 _ Hd), ?(bool_decide_eq_false_2 _ Hd);
    simpl; symmetry.
  - apply bool_decide_eq_true_2. congruence.
  - apply bool_decide_eq_false_2. congruence.
  - apply bool_decide_eq_false_2. congruence.
  - apply bool_decide_eq_false_2. congruence.
Qed.

(** The document an upsert inserts is the metric itself. *)
Lemma filterDoc_absorbed (m : Doc) :
  m ∪ filterDoc (op_filter (Metrics.upsertOf m)) = m.
Proof.
  apply map_eq. intros k. rewrite lookup_union.
  destruct (m !! k) as [v|] eqn:Hk; [by destruct (filterDoc _ !! k)|].
  rewrite (left_id_L None _). unfold filterDoc. simpl.
  destruct (m !! "source") as [s|] eqn:Hs; destruct (m !! "date") as [t|] eqn:Ht;
    simpl; rewrite ?lookup_insert_ne, ?lookup_empty; congruence.
Qed.

Lemma updateOne_upsert (m : Doc) docs :
  updateOne (Metrics.upsertOf m) docs = upsert m docs.
Proof.
  induction docs as [|d docs IH]; cbn [updateOne upsert].
  - by rewrite filterDoc_absorbed.
  - rewrite matches_upsertOf.
    destruct (decide (key d = key m)) as [Hk|Hk].
    + by rewrite (bool_decide_eq_true_2 _ Hk).
    + rewrite (bool_decide_eq_false_2 _ Hk). by rewrite <- IH.
Qed.

Lemma applyAll_upsertAll (ms : list Doc) : ∀ docs,
  applyAll (map Metrics.upsertOf ms) docs = upsertAll ms docs.
Proof.
  induction ms as [|m ms IH]; intros docs; [done|].
  unfold applyAll, upsertAll in *. simpl. by rewrite updateOne_upsert, IH.
Qed.

(** [$set] keeps the identity of the document it is applied to. *)
Lemma key_set (m d : Doc) : key d = key m → key (m ∪ d) = key d.
Proof.
  unfold key. intros [= Hs Hd]. f_equal; rewrite lookup_union.
  - rewrite <- Hs. by destruct (d !! "source").
  - rewrite <- Hd. by destruct (d !! "date").
Qed.










(** ** [saveMetrics]: what reaches the store *)

Section store.
Variables BLOOD_PRESSURE HEART_RATE SLEEP_ANALYSIS : string.
Variable mapMetric : MetricData → list Doc.

Let modelOf := Metrics.modelOf BLOOD_PRESSURE HEART_RATE SLEEP_ANALYSIS.
Let saveOperations := Metrics.saveOperations BLOOD_PRESSURE HEART_RATE SLEEP_ANALYSIS.
Let saveMetrics := Metrics.saveMetrics BLOOD_PRESSURE HEART_RATE SLEEP_ANALYSIS mapMetric.

Lemma upsertAll_app (a b : list Doc) docs :
  upsertAll (a ++ b) docs = upsertAll b (upsertAll a docs).
Proof. unfold upsertAll. by rewrite foldl_app. Qed.

(** A model whose bulk write does not fail receives every metric sent
    to it, whatever the store answers for the other models. *)
Lemma saveOperations_colls fault model entries : ∀ st,
  fault model = None →
  colls (saveOperations fault entries st).2 model
  = upsertAll (metricsOf modelOf model entries) (colls st model).
Proof.
  induction entries as [|[k ms] entries IH]; intros st Hok; [done|].
  subst saveOperations. cbn [Metrics.saveOperations].
  fold modelOf. unfold bulkWrite.
  destruct (Metrics.saveOperations _ _ _ _ _ _) as [rs st2] eqn:Hrest.
  cbn [snd]. change st2 with (rs, st2).2. rewrite <- Hrest.
  rewrite IH by done. cbn [colls].
  unfold metricsOf. rewrite filter_cons. cbn [fst].
  destruct (decide (modelOf k = model)) as [<-|Hne].
  - cbn [map snd concat]. rewrite upsertAll_app, fn_lookup_insert, Hok.
    by rewrite applyAll_upsertAll.
  - by rewrite fn_lookup_insert_ne.
Qed.



(** The state [saveMetrics] leaves, for a non-empty metrics array
    whose grouping goes through. *)
Lemma saveMetrics_state fault ingest payload m metricsData groups st :
  data ingest = Some payload → metrics payload = Some (m :: metricsData) →
  Metrics.metricsByType mapMetric (m :: metricsData) = Some groups →
  (saveMetrics fault ingest st).2
  = (saveOperations fault (Object_entries groups) st).2.
Proof.
  intros Hdata Hmetrics Hgroups. subst saveMetrics saveOperations.
  unfold Metrics.saveMetrics. rewrite Hdata, Hmetrics, Hgroups.
  destruct (Metrics.saveOperations _ _ _ _ _ _) as [rs st2].
  by destruct (Metrics.rejection rs).
Qed.


(** When the grouping throws, nothing is written and the TypeError is
    the error of the metrics outcome. *)
Lemma saveMetrics_thrown fault ingest payload m metricsData st :
  data ingest = Some payload → metrics payload = Some (m :: metricsData) →
  Metrics.metricsByType mapMetric (m :: metricsData) = None →
  saveMetrics fault ingest st = (Metrics.failed Metrics.notAFunction, st).
Proof.
  intros Hdata Hmetrics Hgroups. subst saveMetrics.
  unfold Metrics.saveMetrics. by rewrite Hdata, Hmetrics, Hgroups.
Qed.

End store.

Lemma upsert_in_place (m d : Doc) before after :
  Forall (λ d', key d' ≠ key m) before → key d = key m →
  upsert m (before ++ d :: after) = before ++ (m ∪ d) :: after.
Proof.
  intros Hbefore Hd. induction Hbefore as [|d' before Hd' _ IH]; simpl.
  - by rewrite decide_True.
  - by rewrite decide_False, IH.
Qed.


(** C8, as stated, fails: a stored sample with a [metadata] field, sent
    again without it, keeps the old [metadata] next to the new value; the
    stored document is not the new record. *)
Lemma upsert_keeps_old_fields :
  let sent := record "watch" (VDate (DateOf 1705303800000)) 71 in
  mapTimestamps {| md_name := "heart_rate"; md_units := "bpm";
                   md_data := [record "watch" (VString "2024-01-15 08:30:00") 71] |}
  = [sent]
  ∧ key tagged = key sent
  ∧ colls (Examples.saveMetrics noFault resent withTagged).2 HeartRateModel
    = [<["metadata" := VRecord [("device", "watch-7")]]> sent]
  ∧ <["metadata" := VRecord [("device", "watch-7")]]> sent ≠ sent
  ∧ sent !! "metadata" = None.
Proof.
  repeat split; try reflexivity.
  intros H. apply (f_equal (λ d : Doc, d !! "metadata")) in H.
  vm_compute in H. discriminate H.
Qed.

(** C8, amended: the upsert of a metric over the stored document with
    its (source, date) writes every field of the new record and leaves
    the fields the record does not name as they were; the other
    documents are untouched.  The stored document is the new record
    exactly when the old one has no field beyond those of the record. *)
Theorem upsert_sets_fields (metric d : Doc) before after :
  Forall (λ d', key d' ≠ key metric) before →
  key d = key metric →
  ∃ stored,
    updateOne (Metrics.upsertOf metric) (before ++ d :: after)
    = before ++ stored :: after
    ∧ (∀ k v, metric !! k = Some v → stored !! k = Some v)
    ∧ (∀ k, metric !! k = None → stored !! k = d !! k)
    ∧ (dom d ⊆ dom metric ↔ stored = metric).
Proof.
  intros Hbefore Hd. exists (metric ∪ d).
  split; [rewrite updateOne_upsert; by apply upsert_in_place|].
  split; [intros k v Hk; by apply lookup_union_Some_l|].
  split; [intros k Hk; by apply lookup_union_r|].
  split.
  - intros Hdom. apply map_eq. intros k. rewrite lookup_union.
    destruct (metric !! k) as [v|] eqn:Hk; [by destruct (d !! k)|].
    rewrite (left_id_L None _).
    apply not_elem_of_dom. apply not_elem_of_dom in Hk. set_solver.
  - intros Heq k Hk. apply elem_of_dom in Hk as [v Hv].
    apply elem_of_dom. rewrite <- Heq. rewrite lookup_union.
    rewrite Hv. by destruct (metric !! k).
Qed.

Lemma upsert_sets_fields_witness :
  let sent := record "watch" (VDate (DateOf 1705303800000)) 71 in
  ∃ stored,
    updateOne (Metrics.upsertOf sent)
      [record "phone" (VDate (DateOf 1705303800000)) 60; tagged]
    = [record "phone" (VDate (DateOf 1705303800000)) 60; stored]
    ∧ stored !! "qty" = Some (VNumber (Finite 71))
    ∧ stored !! "metadata" = Some (VRecord [("device", "watch-7")]).
Proof.
  intros sent.
  destruct (upsert_sets_fields sent tagged
              [record "phone" (VDate (DateOf 1705303800000)) 60] [])
    as (stored & Hup & Hnew & Hold & _).
  - apply Forall_cons. split; [|by apply Forall_nil].
    intros H. vm_compute in H. discriminate H.
  - reflexivity.
  - exists stored. split; [exact Hup|]. split.
    + apply Hnew. reflexivity.
    + rewrite Hold; reflexivity.
Defined.

(** ** Independent bulk writes *)




(** X5: the epoch instant written as a string is truthy and resolves;
    only the number 0 (and the other falsy inputs) is turned down. *)
Lemma parseDate_epoch_as_string (host : Host) :
  parseDate host (Str "0") = Some (DateOf 0)
  ∧ parseDate host (Str "1970-01-01") = Some (DateOf 0).
Proof. split; reflexivity. Qed.

(* ===================================================================== *)
(** * Further properties of the code                                     *)
(* ===================================================================== *)

Import Coverage.

(** ** Identities in a collection *)

Lemma upsert_keys (m : Doc) docs :
  map key (upsert m docs)
  = if decide (key m ∈ map key docs) then map key docs
    else map key docs ++ [key m].
Proof.
  induction docs as [|d docs IH]; cbn [upsert map].
  - destruct (decide (key m ∈ [])) as [Hin|Hin]; [by apply elem_of_nil in Hin|done].
  - destruct (decide (key d = key m)) as [Hk|Hk]; cbn [map].
    + rewrite key_set by done.
      destruct (decide (key m ∈ key d :: map key docs)) as [Hin|Hin]; [done|].
      exfalso. apply Hin. rewrite Hk. apply list_elem_of_here.
    + rewrite IH.
      destruct (decide (key m ∈ map key docs)) as [Hin|Hin];
        destruct (decide (key m ∈ key d :: map key docs)) as [Hin'|Hin'].
      * done.
      * exfalso. apply Hin'. by apply list_elem_of_further.
      * apply elem_of_cons in Hin' as [?|?]; congruence.
      * done.
Qed.

Lemma upsert_keeps (m : Doc) docs :
  map key docs `prefix_of` map key (upsert m docs)
  ∧ (NoDup (map key docs) → NoDup (map key (upsert m docs))).
Proof.
  rewrite upsert_keys. destruct (decide _) as [Hin|Hin].
  - done.
  - split; [by apply prefix_app_r|].
    intros Hnd. apply NoDup_app. split; [done|]. split; [|apply NoDup_singleton].
    intros k Hk ->%list_elem_of_singleton. done.
Qed.

Lemma upsertAll_keeps (ms : list Doc) : ∀ docs,
  map key docs `prefix_of` map key (upsertAll ms docs)
  ∧ (NoDup (map key docs) → NoDup (map key (upsertAll ms docs))).
Proof.
  induction ms as [|m ms IH]; intros docs; [done|].
  change (upsertAll (m :: ms) docs) with (upsertAll ms (upsert m docs)).
  destruct (upsert_keeps m docs) as [Hp Hn].
  destruct (IH (upsert m docs)) as [Hp' Hn'].
  split; [by etrans|auto].
Qed.

Section store_any.
Variables BLOOD_PRESSURE HEART_RATE SLEEP_ANALYSIS : string.
Variable mapMetric : MetricData → list Doc.
Variable fault : Fault.

Let modelOf := Metrics.modelOf BLOOD_PRESSURE HEART_RATE SLEEP_ANALYSIS.
Let saveOperations :=
  Metrics.saveOperations BLOOD_PRESSURE HEART_RATE SLEEP_ANALYSIS fault.
Let saveMetrics :=
  Metrics.saveMetrics BLOOD_PRESSURE HEART_RATE SLEEP_ANALYSIS mapMetric fault.

(** Whatever the store answers, a collection ends as the upsert of some
    of the metrics over what it held. *)
Lemma saveOperations_upserts entries : ∀ st model,
  ∃ ms, colls (saveOperations entries st).2 model = upsertAll ms (colls st model).
Proof.
  induction entries as [|[k metrics] entries IH]; intros st model.
  { by exists []. }
  subst saveOperations. cbn [Metrics.saveOperations]. unfold bulkWrite.
  destruct (Metrics.saveOperations _ _ _ _ _ _) as [rs st2] eqn:Hrest.
  cbn [snd]. change st2 with (rs, st2).2. rewrite <- Hrest.
  edestruct IH as [ms ->]. cbn [colls].
  destruct (decide (Metrics.modelOf BLOOD_PRESSURE HEART_RATE SLEEP_ANALYSIS k
                    = model)) as [<-|Hne].
  - rewrite fn_lookup_insert.
    destruct (fault _) as [[n msg]|].
    + exists (take n metrics ++ ms).
      rewrite upsertAll_app, <- (applyAll_upsertAll (take n metrics)).
      by rewrite firstn_map.
    + exists (metrics ++ ms). by rewrite upsertAll_app, applyAll_upsertAll.
  - rewrite fn_lookup_insert_ne by done. by exists ms.
Qed.

Lemma saveMetrics_upserts ingest st model :
  ∃ ms, colls (saveMetrics ingest st).2 model = upsertAll ms (colls st model).
Proof.
  subst saveMetrics. unfold Metrics.saveMetrics.
  destruct (data ingest) as [payload|]; [|by exists []].
  destruct (metrics payload) as [[|m metricsData]|]; [by exists []| |by exists []].
  destruct (Metrics.metricsByType mapMetric (m :: metricsData)) as [groups|];
    [|by exists []].
  destruct (saveOperations_upserts (Object_entries groups) st model)
    as [ms Hms].
  subst saveOperations.
  destruct (Metrics.saveOperations _ _ _ _ _ _) as [rs st2].
  exists ms. by destruct (Metrics.rejection rs).
Qed.

(** X6: whatever the request holds and whatever the store answers to
    each bulk write, [saveMetrics] removes no stored identity (the
    (source, date) pairs of a collection stay, in their order, at the
    head of the collection), and a collection in which every identity is
    stored once is left in that condition. *)
Theorem saveMetrics_keeps_identities_unique ingest st model :
  map key (colls st model) `prefix_of` map key (colls (saveMetrics ingest st).2 model)
  ∧ (NoDup (map key (colls st model)) →
       NoDup (map key (colls (saveMetrics ingest st).2 model))).
Proof.
  destruct (saveMetrics_upserts ingest st model) as [ms ->].
  apply upsertAll_keeps.
Qed.
End store_any.

Lemma saveMetrics_keeps_identities_unique_witness :
  NoDup (map key (colls (Examples.saveMetrics (failing (MetricModel "step_count"))
                           resent withTagged).2 HeartRateModel)).
Proof.
  refine (proj2 (saveMetrics_keeps_identities_unique
                   "blood_pressure" "heart_rate" "sleep_analysis" mapTimestamps
                   (failing (MetricModel "step_count")) resent withTagged
                   HeartRateModel) _).
  apply NoDup_singleton.
Defined.

(** ** Last write wins *)

Lemma upsert_lands (m : Doc) docs :
  ∃ before d after,
    upsert m docs = before ++ d :: after
    ∧ Forall (λ d', key d' ≠ key m) before ∧ key d = key m ∧ m ⊆ d.
Proof.
  induction docs as [|d0 docs IH]; simpl.
  - exists [], m, []. by repeat split.
  - destruct (decide (key d0 = key m)) as [Hk|Hk].
    + exists [], (m ∪ d0), docs. repeat split; [done|by rewrite key_set|].
      apply map_union_subseteq_l.
    + destruct IH as (before & d & after & -> & Hb & Hd & Hsub).
      exists (d0 :: before), d, after. repeat split; [by constructor|done..].
Qed.

Lemma upsert_elsewhere (m' : Doc) before (d : Doc) after :
  key m' ≠ key d →
  ∃ before' after',
    upsert m' (before ++ d :: after) = before' ++ d :: after'
    ∧ map key before' = map key before.
Proof.
  intros Hne. induction before as [|d0 before IH]; simpl.
  - rewrite decide_False by congruence. by exists [], (upsert m' after).
  - destruct (decide (key d0 = key m')) as [Hk|Hk].
    + exists ((m' ∪ d0) :: before), after. split; [done|].
      simpl. by rewrite key_set.
    + destruct IH as (before' & after' & -> & Hkeys).
      exists (d0 :: before'), after'. split; [done|]. simpl. by rewrite Hkeys.
Qed.

Lemma upsertAll_elsewhere (ms : list Doc) (d : Doc) : ∀ before after,
  Forall (λ m', key m' ≠ key d) ms →
  ∃ before' after',
    upsertAll ms (before ++ d :: after) = before' ++ d :: after'
    ∧ map key before' = map key before.
Proof.
  induction ms as [|m' ms IH]; intros before after Hms.
  { by exists before, after. }
  apply Forall_cons in Hms as [Hm' Hms].
  destruct (upsert_elsewhere m' before d after Hm')
    as (before1 & after1 & Hup & Hkeys1).
  destruct (IH before1 after1 Hms) as (before2 & after2 & Hall & Hkeys2).
  exists before2, after2. split; [|congruence].
  change (upsertAll (m' :: ms) (before ++ d :: after))
    with (upsertAll ms (upsert m' (before ++ d :: after))).
  by rewrite Hup.
Qed.

(** X7: within one bulk write the last operation on an identity wins:
    when no later metric of the batch has the (source, date) of [m], the
    first stored document with that identity carries every field of [m]
    with the value [m] gives it. *)
Theorem bulk_upsert_last_write_wins (ms1 : list Doc) (m : Doc) (ms2 : list Doc) docs :
  Forall (λ m', key m' ≠ key m) ms2 →
  ∃ before d after,
    applyAll (map Metrics.upsertOf (ms1 ++ m :: ms2)) docs = before ++ d :: after
    ∧ Forall (λ d', key d' ≠ key m) before
    ∧ key d = key m
    ∧ ∀ k v, m !! k = Some v → d !! k = Some v.
Proof.
  intros Hms2. rewrite applyAll_upsertAll, upsertAll_app.
  change (upsertAll (m :: ms2) (upsertAll ms1 docs))
    with (upsertAll ms2 (upsert m (upsertAll ms1 docs))).
  destruct (upsert_lands m (upsertAll ms1 docs))
    as (before & d & after & -> & Hb & Hd & Hsub).
  destruct (upsertAll_elsewhere ms2 d before after)
    as (before' & after' & -> & Hkeys).
  { eapply Forall_impl; [exact Hms2|]. intros m' Hm'. congruence. }
  exists before', d, after'. split; [done|]. split; [|split; [done|]].
  - apply Forall_forall. intros d' Hd'.
    assert (key d' ∈ map key before) as Hin.
    { rewrite <- Hkeys. apply list_elem_of_In, in_map, list_elem_of_In, Hd'. }
    apply list_elem_of_In, in_map_iff in Hin as (d0 & <- & Hd0%list_elem_of_In).
    rewrite Forall_forall in Hb. by apply Hb.
  - intros k v Hk. by eapply lookup_weaken.
Qed.

Lemma bulk_upsert_last_write_wins_witness :
  ∃ before d after,
    applyAll (map Metrics.upsertOf
                [record "watch" (VDate (DateOf 1)) 70;
                 record "phone" (VDate (DateOf 1)) 10;
                 record "watch" (VDate (DateOf 1)) 71])
             [tagged]
    = before ++ d :: after
    ∧ key d = key (record "watch" (VDate (DateOf 1)) 71)
    ∧ d !! "qty" = Some (VNumber (Finite 71)).
Proof.
  destruct (bulk_upsert_last_write_wins
              [record "watch" (VDate (DateOf 1)) 70;
               record "phone" (VDate (DateOf 1)) 10]
              (record "watch" (VDate (DateOf 1)) 71) [] [tagged])
    as (before & d & after & Heq & _ & Hk & Hfields).
  - apply Forall_nil_2.
  - exists before, d, after. split; [exact Heq|]. split; [exact Hk|].
    apply Hfields. reflexivity.
Defined.

(** ** Grouping by kind *)

Section grouping.
Variable mapMetric : MetricData → list Doc.

Lemma push_None k ms (acc : list (string * list Doc)) :
  Metrics.push k ms acc = None → k ∈ Object_prototype.
Proof.
  induction acc as [|[k' ms'] acc IH]; cbn [Metrics.push].
  - destruct (decide (k ∈ Object_prototype)) as [Hin|Hin]; [done|].
    by rewrite bool_decide_eq_false_2.
  - destruct (String.eqb k' k); [done|].
    destruct (Metrics.push k ms acc); [done|auto].
Qed.

Lemma push_Some k ms (acc acc' : list (string * list Doc)) :
  Metrics.push k ms acc = Some acc' →
  (k ∈ map fst acc ∨ k ∉ Object_prototype)
  ∧ map fst acc'
    = (if decide (k ∈ map fst acc) then map fst acc else map fst acc ++ [k])
  ∧ ∀ k', groupOf k' acc'
          = if String.eqb k k' then groupOf k' acc ++ ms else groupOf k' acc.
Proof.
  revert acc'. induction acc as [|[k0 ms0] acc IH]; intros acc';
    cbn [Metrics.push map fst groupOf].
  - destruct (decide (k ∈ Object_prototype)) as [Hin|Hin].
    { by rewrite bool_decide_eq_true_2. }
    rewrite bool_decide_eq_false_2 by done. intros [= <-].
    split; [by right|]. split.
    + destruct (decide (k ∈ [])) as [Hk|_]; [by apply elem_of_nil in Hk|done].
    + intros k'. cbn [groupOf]. by destruct (String.eqb k k').
  - destruct (String.eqb_spec k0 k) as [->|Hne].
    + intros [= <-]. split; [left; apply list_elem_of_here|]. split.
      * cbn [map fst].
        destruct (decide (k ∈ k :: map fst acc)) as [_|Hin]; [done|].
        exfalso. apply Hin, list_elem_of_here.
      * intros k'. cbn [groupOf]. by destruct (String.eqb k k').
    + destruct (Metrics.push k ms acc) as [acc1|]; [|done].
      cbn. intros [= <-].
      destruct (IH acc1 eq_refl) as (Hk & Hkeys & Hgroup).
      split; [destruct Hk; [left; by apply list_elem_of_further|by right]|].
      split.
      * cbn [map fst]. rewrite Hkeys.
        destruct (decide (k ∈ map fst acc)) as [Hin|Hin];
          destruct (decide (k ∈ k0 :: map fst acc)) as [Hin'|Hin'].
        -- done.
        -- exfalso. by apply Hin', list_elem_of_further.
        -- apply elem_of_cons in Hin' as [?|?]; congruence.
        -- done.
      * intros k'. cbn [groupOf]. rewrite Hgroup.
        destruct (String.eqb_spec k0 k') as [->|Hne']; [|done].
        destruct (String.eqb_spec k k'); [congruence|done].
Qed.

Lemma grouping_None (metricsData : list MetricData) :
  foldl (λ acc metric,
           acc ≫= Metrics.push (md_name metric) (mapMetric metric))
        None metricsData = None.
Proof. by induction metricsData. Qed.

Lemma grouping_fold (metricsData : list MetricData) : ∀ acc,
  NoDup (map fst acc) →
  match foldl (λ acc metric,
                 acc ≫= Metrics.push (md_name metric) (mapMetric metric))
              (Some acc) metricsData with
  | Some groups =>
      Forall (λ md, md_name md ∈ map fst acc ∨ md_name md ∉ Object_prototype)
             metricsData
      ∧ NoDup (map fst groups)
      ∧ ∀ k,
          groupOf k groups
          = groupOf k acc
            ++ flat_map mapMetric
                 (List.filter (λ md, String.eqb (md_name md) k) metricsData)
          ∧ (k ∈ map fst groups ↔
               k ∈ map fst acc ∨ ∃ md, md ∈ metricsData ∧ md_name md = k)
  | None => ∃ md, md ∈ metricsData ∧ md_name md ∈ Object_prototype
  end.
Proof.
  induction metricsData as [|md metricsData IH]; intros acc Hnd; cbn [foldl].
  - split; [done|]. split; [done|]. intros k. cbn. rewrite app_nil_r.
    split; [done|]. split; [by left|]. intros [?|(md & Hin & _)]; [done|].
    by apply elem_of_nil in Hin.
  - cbn [mbind option_bind].
    destruct (Metrics.push (md_name md) (mapMetric md) acc) as [acc1|] eqn:Hpush.
    + destruct (push_Some _ _ _ _ Hpush) as (Hname & Hkeys & Hgroup).
      assert (NoDup (map fst acc1)) as Hnd1.
      { rewrite Hkeys. destruct (decide _) as [Hin|Hin]; [done|].
        apply NoDup_app. split; [done|]. split; [|apply NoDup_singleton].
        intros k' Hk' ->%list_elem_of_singleton. done. }
      assert (∀ k, k ∈ map fst acc1 ↔ k ∈ map fst acc ∨ k = md_name md) as Hin1.
      { intros k. rewrite Hkeys. destruct (decide _) as [Hin|Hin].
        - split; [by left|]. by intros [?| ->].
        - rewrite elem_of_app, list_elem_of_singleton. done. }
      specialize (IH acc1 Hnd1).
      destruct (foldl _ (Some acc1) metricsData) as [groups|].
      * destruct IH as (Hall & Hnd' & Hk). split; [|split; [done|]].
        { apply Forall_cons. split; [done|].
          eapply Forall_impl; [exact Hall|]. intros md' [Hin|?]; [|by right].
          apply Hin1 in Hin as [?| ->]; [by left|done]. }
        intros k. destruct (Hk k) as [-> ->]. rewrite Hgroup, Hin1.
        cbn [List.filter]. split.
        -- destruct (String.eqb (md_name md) k); cbn [flat_map];
             by rewrite <- ?app_assoc.
        -- split.
           ++ intros [[?| ->]|(md' & Hin & Hname')]; [by left| |].
              ** right. exists md. split; [apply list_elem_of_here|done].
              ** right. exists md'. split; [by apply list_elem_of_further|done].
           ++ intros [?|(md' & Hin & Hname')]; [by left; left|].
              apply elem_of_cons in Hin as [->|Hin]; [by left; right|].
              right. by exists md'.
      * destruct IH as (md' & Hin & Hproto). exists md'.
        split; [by apply list_elem_of_further|done].
    + rewrite grouping_None. exists md.
      split; [apply list_elem_of_here|by eapply push_None].
Qed.

Lemma insertIndex_perm {A} i (x : A) l : insertIndex i x l ≡ₚ (i, x) :: l.
Proof.
  induction l as [|[j y] l IH]; simpl; [done|].
  destruct (i <? j); [done|]. rewrite IH. apply Permutation_swap.
Qed.

(** [Object.entries] lists every own property once. *)
Lemma Object_entries_perm {A} (obj : list (string * A)) :
  Object_entries obj ≡ₚ obj.
Proof.
  unfold Object_entries.
  induction obj as [|[k x] obj IH]; [done|]. cbn [foldr List.filter fst].
  destruct (arrayIndex k) as [i|] eqn:Hk.
  - rewrite bool_decide_eq_false_2 by done.
    etrans; [apply Permutation_app_tail, Permutation_map, insertIndex_perm|].
    cbn [map snd app]. by apply Permutation_skip.
  - rewrite bool_decide_eq_true_2 by done.
    etrans; [symmetry; apply Permutation_middle|]. by apply Permutation_skip.
Qed.

Lemma groupOf_elem k ms (l : list (string * list Doc)) :
  NoDup (map fst l) → (k, ms) ∈ l → groupOf k l = ms.
Proof.
  induction l as [|[k' ms'] l IH]; cbn [map fst groupOf].
  - intros _ Hin. by apply elem_of_nil in Hin.
  - intros [Hk' Hnd]%NoDup_cons [[= -> ->]|Hin]%elem_of_cons.
    + by rewrite String.eqb_refl.
    + destruct (String.eqb_spec k' k) as [->|_]; [|by apply IH].
      exfalso. apply Hk'. apply list_elem_of_In, in_map_iff.
      exists (k, ms). split; [done|by apply list_elem_of_In].
Qed.

Lemma groupOf_absent k (l : list (string * list Doc)) :
  k ∉ map fst l → groupOf k l = [].
Proof.
  induction l as [|[k' ms'] l IH]; cbn [map fst groupOf]; [done|].
  intros [Hne Hk]%not_elem_of_cons.
  destruct (String.eqb_spec k' k); [congruence|by apply IH].
Qed.

Lemma groupOf_perm k (l l' : list (string * list Doc)) :
  NoDup (map fst l) → l ≡ₚ l' → groupOf k l = groupOf k l'.
Proof.
  intros Hnd Hperm.
  assert (NoDup (map fst l')) as Hnd'.
  { assert (map fst l ≡ₚ map fst l') as Hkeys by apply Permutation_map, Hperm.
    by rewrite <- Hkeys. }
  destruct (decide (k ∈ map fst l)) as [Hin|Hin].
  - apply list_elem_of_In, in_map_iff in Hin as ([k0 ms] & Hk & Hin).
    simpl in Hk. subst k0. apply list_elem_of_In in Hin.
    rewrite (groupOf_elem k ms l) by done.
    rewrite (groupOf_elem k ms l'); [done|done|by rewrite <- Hperm].
  - rewrite !groupOf_absent; [done| |done].
    intros Hin'. apply Hin.
    apply list_elem_of_In. apply list_elem_of_In in Hin'.
    eapply Permutation_in; [symmetry; apply Permutation_map, Hperm|done].
Qed.

Lemma Object_entries_singleton {A} k (x : A) :
  Object_entries [(k, x)] = [(k, x)].
Proof.
  unfold Object_entries. cbn [foldr List.filter fst].
  destruct (arrayIndex k) as [i|] eqn:Hk.
  - by rewrite bool_decide_eq_false_2.
  - by rewrite bool_decide_eq_true_2.
Qed.

(** The grouping goes through when no name is one of [Object.prototype]. *)
Lemma metricsByType_Some (metricsData : list MetricData) :
  Forall (λ md, md_name md ∉ Object_prototype) metricsData →
  ∃ groups,
    Metrics.metricsByType mapMetric metricsData = Some groups
    ∧ NoDup (map fst groups)
    ∧ NoDup (map fst (Object_entries groups))
    ∧ ∀ k, groupOf k (Object_entries groups)
           = flat_map mapMetric
               (List.filter (λ md, String.eqb (md_name md) k) metricsData).
Proof.
  intros Hnames.
  pose proof (grouping_fold metricsData [] (NoDup_nil_2)) as H.
  unfold Metrics.metricsByType.
  destruct (foldl _ (Some []) metricsData) as [groups|].
  - destruct H as (_ & Hnd & Hk). exists groups.
    split; [done|]. split; [done|]. split.
    + assert (map fst (Object_entries groups) ≡ₚ map fst groups) as Hkeys
        by apply Permutation_map, Object_entries_perm.
      by rewrite Hkeys.
    + intros k. destruct (Hk k) as [Hg _]. cbn in Hg. rewrite <- Hg.
      symmetry. apply groupOf_perm; [done|].
      symmetry. apply Object_entries_perm.
  - destruct H as (md & Hin & Hproto). rewrite Forall_forall in Hnames.
    by apply Hnames in Hin.
Qed.

(** X8: when the name of some metric of the request is a name of
    [Object.prototype] the grouping throws.  Otherwise it loses and
    reorders nothing within a kind: the group of a name holds the mapped
    records of every entry of the request with that name, in the order
    of the request; every name of the request has one group and there is
    no other group; and [Object.entries] lists these groups, each once,
    with the same records. *)
Theorem metricsByType_groups (metricsData : list MetricData) :
  match Metrics.metricsByType mapMetric metricsData with
  | Some groups =>
      Forall (λ md, md_name md ∉ Object_prototype) metricsData
      ∧ NoDup (map fst groups)
      ∧ Object_entries groups ≡ₚ groups
      ∧ ∀ k,
          groupOf k groups
          = flat_map mapMetric
              (List.filter (λ md, String.eqb (md_name md) k) metricsData)
          ∧ groupOf k (Object_entries groups) = groupOf k groups
          ∧ (k ∈ map fst groups ↔ ∃ md, md ∈ metricsData ∧ md_name md = k)
  | None => ∃ md, md ∈ metricsData ∧ md_name md ∈ Object_prototype
  end.
Proof.
  pose proof (grouping_fold metricsData [] (NoDup_nil_2)) as H.
  unfold Metrics.metricsByType.
  destruct (foldl _ (Some []) metricsData) as [groups|]; [|done].
  destruct H as (Hall & Hnd & Hk).
  split.
  { eapply Forall_impl; [exact Hall|]. intros md [Hin|?]; [|done].
    by apply elem_of_nil in Hin. }
  split; [done|]. split; [apply Object_entries_perm|].
  intros k. destruct (Hk k) as [Hg Hin]. split; [done|]. split.
  - symmetry. apply groupOf_perm; [done|]. symmetry. apply Object_entries_perm.
  - rewrite Hin. split; [|by right].
    intros [Hnil|?]; [by apply elem_of_nil in Hnil|done].
Qed.
End grouping.

(** ** Reading back what was saved *)

Section reading.
Variables BLOOD_PRESSURE HEART_RATE SLEEP_ANALYSIS : string.
Variable mapMetric : MetricData → list Doc.

Let modelOf := Metrics.modelOf BLOOD_PRESSURE HEART_RATE SLEEP_ANALYSIS.
Let saveMetrics :=
  Metrics.saveMetrics BLOOD_PRESSURE HEART_RATE SLEEP_ANALYSIS mapMetric noFault.

(** Two names never share a model. *)
Lemma modelOf_inj k1 k2 : modelOf k1 = modelOf k2 → k1 = k2.
Proof.
  subst modelOf. unfold Metrics.modelOf.
  destruct (String.eqb_spec k1 BLOOD_PRESSURE), (String.eqb_spec k2 BLOOD_PRESSURE),
    (String.eqb_spec k1 HEART_RATE), (String.eqb_spec k2 HEART_RATE),
    (String.eqb_spec k1 SLEEP_ANALYSIS), (String.eqb_spec k2 SLEEP_ANALYSIS);
    intros H; try discriminate H; simplify_eq; done.
Qed.

Lemma metricsOf_absent k (entries : list (string * list Doc)) :
  k ∉ map fst entries → metricsOf modelOf (modelOf k) entries = [].
Proof.
  unfold metricsOf. induction entries as [|[k' ms] entries IH]; [done|].
  intros Hk. apply not_elem_of_cons in Hk as [Hne Hk].
  rewrite filter_cons_False; [by apply IH|].
  intros Heq%modelOf_inj. simpl in Heq, Hne. congruence.
Qed.

Lemma metricsOf_groupOf k (entries : list (string * list Doc)) :
  NoDup (map fst entries) → metricsOf modelOf (modelOf k) entries = groupOf k entries.
Proof.
  induction entries as [|[k' ms] entries IH]; [done|].
  intros [Hk' Hnd]%NoDup_cons. cbn [groupOf].
  destruct (String.eqb_spec k' k) as [->|Hne].
  - unfold metricsOf. rewrite filter_cons_True by done. cbn [map snd concat].
    fold (metricsOf modelOf (modelOf k) entries).
    by rewrite metricsOf_absent, app_nil_r.
  - unfold metricsOf. rewrite filter_cons_False.
    + by apply IH.
    + intros Heq%modelOf_inj. simpl in Heq. congruence.
Qed.

Lemma saved_collection ingest payload m metricsData st k :
  data ingest = Some payload → metrics payload = Some (m :: metricsData) →
  Forall (λ md, md_name md ∉ Object_prototype) (m :: metricsData) →
  colls (saveMetrics ingest st).2 (modelOf k)
  = upsertAll (flat_map mapMetric
                 (List.filter (λ md, String.eqb (md_name md) k) (m :: metricsData)))
              (colls st (modelOf k)).
Proof.
  intros Hdata Hmetrics Hnames. subst saveMetrics.
  destruct (metricsByType_Some mapMetric _ Hnames)
    as (groups & Hgroups & _ & Hnd & Hgroup).
  rewrite (saveMetrics_state _ _ _ _ _ ingest payload m metricsData groups)
    by done.
  rewrite saveOperations_colls by done. fold modelOf.
  by rewrite metricsOf_groupOf, Hgroup.
Qed.

(** X9: what [saveMetrics] stores under a name is what [getMetrics]
    returns for that name: for a request none of whose metric names is a
    name of [Object.prototype], with no date range, no field filter and
    a store that answers, the metrics found are the stored collection of
    the name's model with the request's records of that name upserted,
    in the order of the request. *)
Theorem saved_metrics_are_found host ingest payload m metricsData st k :
  data ingest = Some payload → metrics payload = Some (m :: metricsData) →
  Forall (λ md, md_name md ∉ Object_prototype) (m :: metricsData) →
  k ≠ "" →
  Query.getMetrics BLOOD_PRESSURE HEART_RATE SLEEP_ANALYSIS host (λ _, None)
    {| Query.selected_metric := Some k; Query.from := None; Query.to := None;
       Query.include := None; Query.exclude := None |}
    (saveMetrics ingest st).2
  = Query.Found
      (upsertAll (flat_map mapMetric
                    (List.filter (λ md, String.eqb (md_name md) k)
                                 (m :: metricsData)))
                 (colls st (modelOf k))).
Proof.
  intros Hdata Hmetrics Hnames Hk. unfold Query.getMetrics.
  cbn [Query.selected_metric Query.include Query.exclude Fields.given orb].
  destruct (String.eqb_spec k ""); [done|].
  fold modelOf. unfold Query.query. cbn [Query.from Query.to Query.dateParam].
  cbn [Query.find].
  by rewrite (saved_collection ingest payload m metricsData st k).
Qed.

(** X10: splitting the records of a metric over two requests stores what
    one request with all of them stores, provided the mapping treats
    each record on its own. *)
Theorem saveMetrics_in_two_requests name units (a b : list Doc) st model :
  (∀ x y, mapMetric {| md_name := name; md_units := units; md_data := x ++ y |}
          = mapMetric {| md_name := name; md_units := units; md_data := x |}
            ++ mapMetric {| md_name := name; md_units := units; md_data := y |}) →
  let one records :=
    {| data := Some {| metrics := Some [{| md_name := name; md_units := units;
                                           md_data := records |}];
                       workouts := None |} |} in
  colls (saveMetrics (one b) (saveMetrics (one a) st).2).2 model
  = colls (saveMetrics (one (a ++ b)) st).2 model.
Proof.
  intros Hmap one. subst saveMetrics.
  destruct (decide (name ∈ Object_prototype)) as [Hproto|Hproto].
  - assert (∀ records st0,
              Metrics.saveMetrics BLOOD_PRESSURE HEART_RATE SLEEP_ANALYSIS
                mapMetric noFault (one records) st0
              = (Metrics.failed Metrics.notAFunction, st0)) as Hthrown.
    { intros records st0.
      apply (saveMetrics_thrown _ _ _ _ _ (one records)
               {| metrics := Some [{| md_name := name; md_units := units;
                                      md_data := records |}];
                  workouts := None |}
               {| md_name := name; md_units := units; md_data := records |} []);
        [done..|].
      unfold Metrics.metricsByType. cbn.
      by rewrite bool_decide_eq_true_2. }
    by rewrite !Hthrown.
  - assert (∀ records st0,
              (Metrics.saveMetrics BLOOD_PRESSURE HEART_RATE SLEEP_ANALYSIS
                 mapMetric noFault (one records) st0).2
              = (Metrics.saveOperations BLOOD_PRESSURE HEART_RATE SLEEP_ANALYSIS
                   noFault
                   [(name, mapMetric {| md_name := name; md_units := units;
                                        md_data := records |})]
                   st0).2) as Hstate.
    { intros records st0.
      rewrite <- (Object_entries_singleton name).
      apply (saveMetrics_state _ _ _ _ _ (one records)
               {| metrics := Some [{| md_name := name; md_units := units;
                                      md_data := records |}];
                  workouts := None |}
               {| md_name := name; md_units := units; md_data := records |} []);
        [done..|].
      unfold Metrics.metricsByType. cbn.
      by rewrite bool_decide_eq_false_2. }
    rewrite !Hstate.
    rewrite !saveOperations_colls by done.
    unfold metricsOf.
    rewrite !filter_cons, !filter_nil. cbn [fst].
    destruct (decide _) as [_|_]; cbn [map snd concat].
    + by rewrite !app_nil_r, Hmap, upsertAll_app.
    + done.
Qed.
End reading.

Lemma saved_metrics_are_found_witness :
  Query.getMetrics "blood_pressure" "heart_rate" "sleep_analysis" cet (λ _, None)
    {| Query.selected_metric := Some "heart_rate"; Query.from := None;
       Query.to := None; Query.include := None; Query.exclude := None |}
    (Examples.saveMetrics noFault morning emptyStore).2
  = Query.Found [record "watch" (VDate (DateOf 1705303800000)) 70;
                 record "watch" (VDate (DateOf 1705303860000)) 72].
Proof.
  refine (saved_metrics_are_found "blood_pressure" "heart_rate" "sleep_analysis"
            mapTimestamps cet morning
            {| metrics := Some [heartRates; steps];
               workouts := Some [run None None None None] |}
            heartRates [steps] emptyStore "heart_rate" eq_refl eq_refl _ _).
  - repeat (apply Forall_cons; split; [decided|]). apply Forall_nil_2.
  - discriminate.
Defined.

Lemma saveMetrics_in_two_requests_witness :
  colls (Examples.saveMetrics noFault
           (single "heart_rate" [record "watch" (VString "2024-01-15 08:31:00") 72])
           (Examples.saveMetrics noFault
              (single "heart_rate" [record "watch" (VString "2024-01-15 08:30:00") 70])
              emptyStore).2).2 HeartRateModel
  = colls (Examples.saveMetrics noFault
             (single "heart_rate"
                [record "watch" (VString "2024-01-15 08:30:00") 70;
                 record "watch" (VString "2024-01-15 08:31:00") 72])
             emptyStore).2 HeartRateModel.
Proof.
  refine (saveMetrics_in_two_requests "blood_pressure" "heart_rate" "sleep_analysis"
            mapTimestamps "heart_rate" "bpm"
            [record "watch" (VString "2024-01-15 08:30:00") 70]
            [record "watch" (VString "2024-01-15 08:31:00") 72]
            emptyStore HeartRateModel _).
  intros x y. unfold mapTimestamps, MetricSpec.resolveRecords. cbn [md_data].
  apply omap_app.
Defined.

(** ** Writing twice, and writing several kinds *)










(** ** [getMetrics]: the date range *)

Lemma parseDate_Some_valid host x d :
  parseDate host x = Some d → ∃ t, d = DateOf t.
Proof.
  unfold parseDate.
  destruct (negb (truthy (toValue x))); [done|].
  destruct (typeof_number x || negb (isNaN (Number x))).
  - destruct (newDate host (VNumber (Number x))) as [[t|]];
      cbn; [|done]. intros [= <-]. by exists t.
  - destruct x as [|n|s]; [done..|].
    destruct (newDate host (VString s)) as [[t|]]; cbn.
    + destruct (includes s "/"); [intros [= <-]; by exists t|].
      destruct (includes s "-"); [intros [= <-]; by exists t|done].
    + by destruct (includes s "/"), (includes s "-").
Qed.

(** X11: whatever [parseDate] returns is a valid date: it answers null
    rather than an Invalid Date, for every input and time zone. *)
Theorem parseDate_never_invalid host x :
  match parseDate host x with
  | Some d => isValidDate d = true ∧ ∃ t, getTime d = Some t
  | None => True
  end.
Proof.
  destruct (parseDate host x) as [d|] eqn:Hd; [|done].
  apply parseDate_Some_valid in Hd as [t ->]. split; [done|by exists t].
Qed.




(** ** [filterFields] *)

Lemma splitChars_nonempty l : Fields.splitChars l ≠ [].
Proof.
  induction l as [|c l IH]; simpl; [done|].
  destruct (isChar c ","); [done|]. by destruct (Fields.splitChars l).
Qed.

Lemma parse_given (param : option string) :
  Fields.given param = true →
  ∃ s, param = Some s ∧ Fields.parse param = Some (Fields.split s)
       ∧ Fields.listed (Fields.parse param) = true.
Proof.
  destruct param as [s|]; [|done]. simpl. intros Hs. exists s.
  rewrite Hs. split; [done|]. split; [done|]. unfold Fields.split. simpl.
  pose proof (splitChars_nonempty (list_ascii_of_string s)).
  by destruct (Fields.splitChars _).
Qed.

Lemma parse_not_given (param : option string) :
  Fields.given param = false → Fields.parse param = None.
Proof. destruct param as [s|]; [|done]. simpl. by intros ->. Qed.

Lemma pick_step (obj acc : Doc) f k :
  match Fields.get obj f with
  | VUndefined => acc
  | v => Fields.assign f v acc
  end !! k
  = if decide (f = k ∧ k ≠ "__proto__")
    then match defined (Fields.get obj k) with
         | Some v => Some v
         | None => acc !! k
         end
    else acc !! k.
Proof.
  unfold Fields.assign.
  destruct (decide (f = k ∧ k ≠ "__proto__")) as [[-> Hk]|Hno].
  - apply String.eqb_neq in Hk. rewrite Hk.
    destruct (Fields.get obj k); cbn [defined]; by rewrite ?lookup_insert_eq.
  - destruct (String.eqb_spec f "__proto__") as [->|Hf].
    + by destruct (Fields.get obj "__proto__").
    + assert (f ≠ k) as Hne by (intros ->; by apply Hno).
      destruct (Fields.get obj f); by rewrite ?lookup_insert_ne.
Qed.

Lemma pick_fold (obj : Doc) (fields : list string) : ∀ (acc : Doc) k,
  foldl (λ filtered field,
           match Fields.get obj field with
           | VUndefined => filtered
           | v => Fields.assign field v filtered
           end) acc fields !! k
  = match defined (Fields.get obj k) with
    | Some v => if decide (k ∈ fields ∧ k ≠ "__proto__") then Some v else acc !! k
    | None => acc !! k
    end.
Proof.
  induction fields as [|f fields IH]; intros acc k; cbn [foldl].
  - destruct (defined _); [|done].
    destruct (decide (k ∈ [] ∧ _)) as [[Hin _]|_]; [by apply elem_of_nil in Hin|done].
  - rewrite IH, pick_step.
    destruct (defined (Fields.get obj k)) as [v|] eqn:Hv.
    + destruct (decide (k ∈ fields ∧ k ≠ "__proto__")) as [[Hin Hk]|Hno].
      * rewrite decide_True; [done|]. split; [by apply list_elem_of_further|done].
      * destruct (decide (f = k ∧ k ≠ "__proto__")) as [[-> Hk]|Hno'].
        -- rewrite decide_True; [done|]. split; [apply list_elem_of_here|done].
        -- rewrite decide_False; [done|].
           intros [[->|Hin]%elem_of_cons Hk]; [by apply Hno'|by apply Hno].
    + by destruct (decide (f = k ∧ k ≠ "__proto__")).
Qed.

Lemma pick_lookup (obj : Doc) fields k :
  Fields.pick obj fields !! k
  = if decide (k ∈ fields ∧ k ≠ "__proto__") then defined (Fields.get obj k)
    else None.
Proof.
  unfold Fields.pick. rewrite pick_fold, lookup_empty.
  destruct (defined _); by destruct (decide _).
Qed.

Lemma omit_lookup (fields : list string) : ∀ (obj : Doc) k,
  Fields.omit obj fields !! k = if decide (k ∈ fields) then None else obj !! k.
Proof.
  unfold Fields.omit.
  induction fields as [|f fields IH]; intros obj k; cbn [foldl].
  - destruct (decide (k ∈ [])) as [Hin|_]; [by apply elem_of_nil in Hin|done].
  - rewrite IH. destruct (decide (k ∈ fields)) as [Hin|Hin].
    + destruct (decide (k ∈ f :: fields)) as [_|Hn]; [done|].
      exfalso. by apply Hn, list_elem_of_further.
    + destruct (decide (k ∈ f :: fields)) as [Hin'|Hin'].
      * apply elem_of_cons in Hin' as [->|?]; [|done]. apply lookup_delete_eq.
      * apply not_elem_of_cons in Hin' as [Hne _]. by rewrite lookup_delete_ne.
Qed.

(** X13: with a non-empty [include] parameter the result holds, under
    every listed name other than [__proto__], what [obj[name]] is when
    that is not [undefined]: the object's own value, or, for a name the
    object does not own, what it inherits from [Object.prototype] there.
    It holds nothing else, and the [exclude] parameter plays no part. *)
Theorem filterFields_include (obj : Doc) (s : string) (exclude : option string) k :
  s ≠ "" →
  Fields.filterFields obj (Some s) exclude !! k
  = if decide (k ∈ Fields.split s ∧ k ≠ "__proto__")
    then defined (Fields.get obj k)
    else None.
Proof.
  intros Hs.
  destruct (parse_given (Some s)) as (s' & [= <-] & Hparse & Hlisted).
  { simpl. by destruct (String.eqb_spec s ""). }
  unfold Fields.filterFields. rewrite Hlisted, Hparse.
  rewrite bool_decide_eq_false_2 by done. cbn [andb default].
  apply pick_lookup.
Qed.

Lemma filterFields_include_witness :
  Fields.filterFields tagged (Some "qty,toString,steps") (Some "qty") !! "qty"
  = Some (VNumber (Finite 70))
  ∧ Fields.filterFields tagged (Some "qty,toString,steps") (Some "qty") !! "toString"
    = Some (VNative "toString")
  ∧ Fields.filterFields tagged (Some "qty,toString,steps") (Some "qty") !! "source"
    = None.
Proof.
  split; [|split].
  - exact (filterFields_include tagged "qty,toString,steps" (Some "qty") "qty"
             ltac:(discriminate)).
  - exact (filterFields_include tagged "qty,toString,steps" (Some "qty") "toString"
             ltac:(discriminate)).
  - exact (filterFields_include tagged "qty,toString,steps" (Some "qty") "source"
             ltac:(discriminate)).
Defined.

(** X14: without an [include] parameter (absent or empty), a non-empty
    [exclude] parameter removes the listed fields and leaves every other
    field as it is. *)
Theorem filterFields_exclude (obj : Doc) (include : option string) (s : string) k :
  Fields.given include = false → s ≠ "" →
  Fields.filterFields obj include (Some s) !! k
  = if decide (k ∈ Fields.split s) then None else obj !! k.
Proof.
  intros Hinc Hs.
  destruct (parse_given (Some s)) as (s' & [= <-] & Hparse & Hlisted).
  { simpl. by destruct (String.eqb_spec s ""). }
  unfold Fields.filterFields.
  rewrite (parse_not_given include Hinc), Hlisted, Hparse.
  rewrite (bool_decide_eq_false_2 (Some _ = None)) by done.
  rewrite andb_false_r. cbn [Fields.listed default].
  apply omit_lookup.
Qed.

Lemma filterFields_exclude_witness :
  Fields.filterFields tagged (Some "") (Some "qty,metadata") !! "qty" = None
  ∧ Fields.filterFields tagged (Some "") (Some "qty,metadata") !! "source"
    = Some (VString "watch").
Proof.
  split.
  - exact (filterFields_exclude tagged (Some "") "qty,metadata" "qty" eq_refl
             ltac:(discriminate)).
  - exact (filterFields_exclude tagged (Some "") "qty,metadata" "source" eq_refl
             ltac:(discriminate)).
Defined.

(** X15: [filterFields] never changes a value: a field of the result
    is a field of the object with the same value, or else, and only when
    [include] is given, a name of [Object.prototype] that the object
    does not own, with what the object inherits there.  Without
    [include] nothing is added, and without either parameter the object
    comes back as it is. *)
Theorem filterFields_keeps_values (obj : Doc) (include exclude : option string) :
  (∀ k v, Fields.filterFields obj include exclude !! k = Some v →
          obj !! k = Some v
          ∨ (obj !! k = None ∧ v = VNative k ∧ k ∈ Object_prototype
             ∧ Fields.given include = true))
  ∧ (Fields.given include = false →
       Fields.filterFields obj include exclude ⊆ obj)
  ∧ (Fields.given include = false → Fields.given exclude = false →
       Fields.filterFields obj include exclude = obj).
Proof.
  assert (Fields.given include = false →
          Fields.filterFields obj include exclude ⊆ obj) as Hsub.
  { intros Hinc. apply map_subseteq_spec. intros k v.
    unfold Fields.filterFields. rewrite (parse_not_given _ Hinc).
    destruct (bool_decide _ && bool_decide _); [done|]. cbn [Fields.listed].
    destruct (Fields.listed (Fields.parse exclude)); [|done].
    rewrite omit_lookup. by destruct (decide _). }
  split; [|split; [done|]].
  - intros k v Hk. destruct (Fields.given include) eqn:Hinc.
    + destruct (parse_given include Hinc) as (s & -> & Hparse & Hlisted).
      unfold Fields.filterFields in Hk. rewrite Hlisted, Hparse in Hk.
      rewrite bool_decide_eq_false_2 in Hk by done. cbn [andb default] in Hk.
      rewrite pick_lookup in Hk. destruct (decide _) as [_|_]; [|done].
      unfold Fields.get in Hk. destruct (obj !! k) as [w|] eqn:Hw.
      * left. destruct w; cbn in Hk; congruence.
      * right. destruct (decide (k ∈ Object_prototype)) as [Hin|Hin].
        -- rewrite bool_decide_eq_true_2 in Hk by done. cbn in Hk.
           by injection Hk as <-.
        -- by rewrite bool_decide_eq_false_2 in Hk.
    + left. by eapply lookup_weaken; [|apply Hsub].
  - intros Hinc Hexc. unfold Fields.filterFields.
    rewrite (parse_not_given _ Hinc), (parse_not_given _ Hexc).
    by rewrite bool_decide_eq_true_2.
Qed.

(** ** Access tokens *)

Lemma requireWriteAuth_Next env headers :
  Auth.requireWriteAuth env headers = Auth.Next ↔
  ∃ token, headers !! "api-key" = Some token
           ∧ env !! "WRITE_TOKEN" = Some token
           ∧ Auth.startsWith token "sk-" = true.
Proof.
  unfold Auth.requireWriteAuth. split.
  - destruct (headers !! "api-key") as [token|]; [|done].
    destruct (String.eqb token ""); [done|].
    destruct (Auth.startsWith token "sk-") eqn:Hp; [|done].
    destruct (decide (Some token = env !! "WRITE_TOKEN")) as [Heq|Hne].
    + intros _. exists token. by repeat split.
    + by rewrite (bool_decide_eq_false_2 _ Hne).
  - intros (token & -> & Henv & Hprefix).
    rewrite Hprefix, Henv, bool_decide_eq_true_2 by done.
    destruct (String.eqb_spec token "") as [->|_]; [done|done].
Qed.

Lemma requireReadAuth_Next env headers :
  Auth.requireReadAuth env headers = Auth.Next ↔
  ∃ token, headers !! "api-key" = Some token
           ∧ env !! "READ_TOKEN" = Some token
           ∧ Auth.startsWith token "sk-" = true.
Proof.
  unfold Auth.requireReadAuth. split.
  - destruct (headers !! "api-key") as [token|]; [|done].
    destruct (String.eqb token ""); [done|].
    destruct (Auth.startsWith token "sk-") eqn:Hp; [|done].
    destruct (decide (Some token = env !! "READ_TOKEN")) as [Heq|Hne].
    + intros _. exists token. by repeat split.
    + by rewrite (bool_decide_eq_false_2 _ Hne).
  - intros (token & -> & Henv & Hprefix).
    rewrite Hprefix, Henv, bool_decide_eq_true_2 by done.
    destruct (String.eqb_spec token "") as [->|_]; [done|done].
Qed.

Lemma requireWriteAuth_answers env headers :
  Auth.requireWriteAuth env headers = Auth.Next
  ∨ Auth.requireWriteAuth env headers
    = Auth.Answer 401 "Unauthorized: Invalid write token".
Proof.
  unfold Auth.requireWriteAuth. destruct (headers !! "api-key"); [|by right].
  destruct (_ || _); [by right|by left].
Qed.

(** X16: the write middleware hands a request on exactly when its
    [api-key] header equals the configured [WRITE_TOKEN] and starts with
    [sk-]; every other request is answered 401.  A configured token that
    does not start with [sk-] therefore lets no request through at all,
    and a request the middleware answers reaches no handler behind
    [/api/data]: the store is left as it is. *)
Theorem write_token_gate (env headers : gmap string string) :
  (Auth.requireWriteAuth env headers = Auth.Next ↔
     ∃ token, headers !! "api-key" = Some token
              ∧ env !! "WRITE_TOKEN" = Some token
              ∧ Auth.startsWith token "sk-" = true)
  ∧ (Auth.requireWriteAuth env headers ≠ Auth.Next →
       Auth.requireWriteAuth env headers
       = Auth.Answer 401 "Unauthorized: Invalid write token"
       ∧ ∀ (A B : Type) (router : B → State → A * State) body st,
           Server.apiData env headers router body st
           = (Server.Denied 401 "Unauthorized: Invalid write token", st))
  ∧ ((∀ t, env !! "WRITE_TOKEN" = Some t → Auth.startsWith t "sk-" = false) →
       Auth.requireWriteAuth env headers ≠ Auth.Next).
Proof.
  split; [apply requireWriteAuth_Next|]. split.
  - intros Hne. destruct (requireWriteAuth_answers env headers) as [?|Hans]; [done|].
    split; [done|]. intros A B router body st. unfold Server.apiData.
    by rewrite Hans.
  - intros Hbad (token & _ & Henv & Hprefix)%requireWriteAuth_Next.
    rewrite (Hbad token Henv) in Hprefix. done.
Qed.

Lemma write_token_gate_witness :
  Server.apiData {[ "WRITE_TOKEN" := "sk-w"; "READ_TOKEN" := "sk-r" ]}
    {[ "api-key" := "sk-r" ]}
    (Examples.ingestData noFault) (Some morning) emptyStore
  = (Server.Denied 401 "Unauthorized: Invalid write token", emptyStore)
  ∧ Auth.requireWriteAuth {[ "WRITE_TOKEN" := "secret" ]} {[ "api-key" := "secret" ]}
    ≠ Auth.Next.
Proof.
  split.
  - destruct (write_token_gate
                {[ "WRITE_TOKEN" := "sk-w"; "READ_TOKEN" := "sk-r" ]}
                {[ "api-key" := "sk-r" ]}) as (_ & Hdenied & _).
    destruct Hdenied as [_ Hroute]; [discriminate|].
    apply Hroute.
  - destruct (write_token_gate {[ "WRITE_TOKEN" := "secret" ]}
                {[ "api-key" := "secret" ]}) as (_ & _ & Hbad).
    apply Hbad. intros t Ht. vm_compute in Ht. by injection Ht as <-.
Defined.

(** X17: the two scopes are separate: when the configured read and write
    tokens differ, a request the read middleware hands on is answered
    401 by the write middleware, and the other way round. *)
Theorem token_scopes_separate (env headers : gmap string string) :
  env !! "READ_TOKEN" ≠ env !! "WRITE_TOKEN" →
  (Auth.requireReadAuth env headers = Auth.Next →
     Auth.requireWriteAuth env headers
     = Auth.Answer 401 "Unauthorized: Invalid write token")
  ∧ (Auth.requireWriteAuth env headers = Auth.Next →
       Auth.requireReadAuth env headers
       = Auth.Answer 401 "Unauthorized: Invalid read token").
Proof.
  intros Hdiff. split.
  - intros (token & Hh & Henv & _)%requireReadAuth_Next.
    destruct (requireWriteAuth_answers env headers) as [Hnext|?]; [|done].
    apply requireWriteAuth_Next in Hnext as (token' & Hh' & Henv' & _).
    congruence.
  - intros (token & Hh & Henv & _)%requireWriteAuth_Next.
    unfold Auth.requireReadAuth. rewrite Hh.
    destruct (decide (Some token = env !! "READ_TOKEN")) as [Heq|Hne];
      [congruence|].
    rewrite (bool_decide_eq_false_2 _ Hne). by rewrite !orb_true_r.
Qed.

Lemma token_scopes_separate_witness :
  Auth.requireWriteAuth {[ "WRITE_TOKEN" := "sk-w"; "READ_TOKEN" := "sk-r" ]}
    {[ "api-key" := "sk-r" ]}
  = Auth.Answer 401 "Unauthorized: Invalid write token".
Proof.
  refine (proj1 (token_scopes_separate
                   {[ "WRITE_TOKEN" := "sk-w"; "READ_TOKEN" := "sk-r" ]}
                   {[ "api-key" := "sk-r" ]} _) eq_refl).
  intros H. vm_compute in H. discriminate H.
Defined.

(** ** The tokens [create-env.sh] writes *)

Lemma token_prefix random : Auth.startsWith (CreateEnv.token random) "sk-" = true.
Proof.
  unfold Auth.startsWith, CreateEnv.token. simpl.
  by destruct (string_of_list_ascii _).
Qed.

Lemma string_of_list_length l : String.length (string_of_list_ascii l) = length l.
Proof. induction l as [|c l IH]; simpl; [done|by rewrite IH]. Qed.

(** X18: the tokens the script writes are accepted by the middlewares
    they are meant for: with the environment of the generated [.env], a
    request carrying the generated read token passes the read middleware
    and one carrying the generated write token passes the write
    middleware, whatever [openssl] printed.  A token is [sk-] followed
    by at most 32 letters and digits. *)
Theorem generated_tokens_are_accepted (random1 random2 : string) :
  let env := CreateEnv.env random1 random2 in
  Auth.requireReadAuth env {[ "api-key" := CreateEnv.token random1 ]} = Auth.Next
  ∧ Auth.requireWriteAuth env {[ "api-key" := CreateEnv.token random2 ]} = Auth.Next
  ∧ (String.length (CreateEnv.token random1) ≤ 35)%nat
  ∧ ∃ l, CreateEnv.token random1 = "sk-" +:+ string_of_list_ascii l
         ∧ Forall (λ c, CreateEnv.isAlnum c = true) l.
Proof.
  intros env. split; [|split; [|split]].
  - apply requireReadAuth_Next. exists (CreateEnv.token random1).
    rewrite lookup_singleton_eq. split; [done|]. split; [done|apply token_prefix].
  - apply requireWriteAuth_Next. exists (CreateEnv.token random2).
    rewrite lookup_singleton_eq. split; [done|]. split; [done|apply token_prefix].
  - unfold CreateEnv.token.
    assert (∀ x, String.length ("sk-" +:+ x) = S (S (S (String.length x))))
      as -> by reflexivity.
    rewrite string_of_list_length, length_take. lia.
  - eexists. split; [done|]. apply Forall_take, Forall_forall.
    intros c Hc%list_elem_of_In%filter_In. by destruct Hc.
Qed.

(** ** [mapWorkoutData]: mapping again *)

Section remapping.
Variable host : Host.

Lemma convertMetricDate_again metric :
  convertMetricDate host (convertMetricDate host metric)
  = convertMetricDate host metric.
Proof.
  destruct metric as [m|]; [|done]. unfold convertMetricDate.
  destruct (truthy (qm_date m)) eqn:Ht; [done|]. by rewrite Ht.
Qed.

Lemma convertHeartRates_again (l : list IHeartRate) :
  map (convertHeartRate host) (map (convertHeartRate host) l)
  = map (convertHeartRate host) l.
Proof. rewrite map_map. apply map_ext. by intros []. Qed.

Lemma convertSteps_again (l : list IQuantityMetric) :
  let convert := λ metric, default metric (convertMetricDate host (Some metric)) in
  map convert (map convert l) = map convert l.
Proof.
  intros convert. rewrite map_map. apply map_ext. intros m. subst convert.
  unfold convertMetricDate. destruct (truthy (qm_date m)) eqn:Ht; simpl.
  - done.
  - by rewrite Ht.
Qed.

(** X19: mapping is stable: a workout that [mapWorkoutData] has mapped,
    read as a raw workout and mapped again, comes out unchanged (the
    dates stay the dates they are, and a heart-rate summary derived the
    first time is the one kept or derived the second time). *)
Theorem mapWorkoutData_stable (w : WorkoutData) :
  mapWorkoutData host (asRaw (mapWorkoutData host w))
  = mapWorkoutData host w.
Proof.
  destruct w as [wid r]. unfold asRaw, mapWorkoutData.
  cbn [workoutId fields Workout.id rest name start end_ duration distance
       activeEnergyBurned activeEnergy heartRateData heartRateRecovery
       stepCount temperature humidity intensity route totalEnergy
       maxHeartRate avgHeartRate stepCadence totalSwimmingStrokeCount
       swimCadence w_speed flightsClimbed elevation].
  cbv zeta.
  assert (∀ o : option (list IHeartRate),
            (map (convertHeartRate host)
               <$> (map (convertHeartRate host) <$> o))
            = (map (convertHeartRate host) <$> o)) as Hhr.
  { intros [l|]; [|done]. simpl. by rewrite convertHeartRates_again. }
  rewrite !Hhr.
  f_equal. f_equal; try apply convertMetricDate_again.
  - destruct (stepCount r) as [l|]; [|done]. simpl. f_equal.
    apply convertSteps_again.
  - destruct (heartRateData r) as [l|]; cbn [fmap option_fmap option_map];
      [|by rewrite !andb_false_r].
    destruct (0 <? length (map (convertHeartRate host) l))%nat;
      [|by rewrite !andb_false_r].
    rewrite !andb_true_r.
    destruct (missing (maxHeartRate r)) eqn:Hm; [|by rewrite Hm].
    by destruct (missing (Some _)).
  - destruct (heartRateData r) as [l|]; cbn [fmap option_fmap option_map];
      [|by rewrite !andb_false_r].
    destruct (0 <? length (map (convertHeartRate host) l))%nat;
      [|by rewrite !andb_false_r].
    rewrite !andb_true_r.
    destruct (missing (avgHeartRate r)) eqn:Hm; [|by rewrite Hm].
    by destruct (missing (Some _)).
Qed.

(** X20: without a heart-rate series, or with an empty one, the supplied
    [maxHeartRate] and [avgHeartRate] come out as they went in: absent
    stays absent, and nothing is derived. *)
Theorem no_series_no_summary (w : WorkoutData) :
  heartRateData (rest w) = None ∨ heartRateData (rest w) = Some [] →
  maxHeartRate (fields (mapWorkoutData host w)) = maxHeartRate (rest w)
  ∧ avgHeartRate (fields (mapWorkoutData host w)) = avgHeartRate (rest w).
Proof.
  unfold mapWorkoutData. cbn [fields maxHeartRate avgHeartRate].
  intros [-> | ->]; cbn; by rewrite !andb_false_r.
Qed.
End remapping.

Lemma no_series_no_summary_witness :
  maxHeartRate (fields (mapWorkoutData cet (run (Some []) None (Some (Finite 0)) None)))
  = None
  ∧ avgHeartRate (fields (mapWorkoutData cet
                            (run (Some []) None (Some (Finite 0)) None)))
    = Some (Finite 0).
Proof.
  exact (no_series_no_summary cet (run (Some []) None (Some (Finite 0)) None)
           (or_intror eq_refl)).
Defined.

(** ** The import script: [transformType] *)

Lemma lowerChar_lower c : Importer.isUpper (Importer.lowerChar c) = false.
Proof. by_ascii c. Qed.

Lemma toLowerCase_lowerOnly s : lowerOnly (Importer.toLowerCase s).
Proof.
  unfold lowerOnly. induction s as [|c s IH]; simpl; [done|].
  apply Forall_cons. split; [apply lowerChar_lower|done].
Qed.

Lemma toLowerCase_id s : lowerOnly s → Importer.toLowerCase s = s.
Proof.
  unfold lowerOnly. induction s as [|c s IH]; simpl; [done|].
  intros [Hc Hs]%Forall_cons. rewrite IH by done.
  unfold Importer.lowerChar. by rewrite Hc.
Qed.

Lemma underscore_id s : lowerOnly s → Importer.underscore s = s.
Proof.
  unfold lowerOnly. induction s as [|a s IH]; [done|].
  intros [Ha Hs]%Forall_cons. cbn [Importer.underscore].
  destruct s as [|b s']; [done|].
  pose proof Hs as [Hb _]%Forall_cons. rewrite Hb, andb_false_r.
  by rewrite IH.
Qed.

Lemma dropPrefix_id (prefix : string) c s :
  Importer.isUpper c = true → lowerOnly s →
  Importer.dropPrefix (String c prefix) s = s.
Proof.
  intros Hc Hs. unfold Importer.dropPrefix.
  destruct s as [|a s']; [done|]. cbn [String.prefix].
  destruct (ascii_dec c a) as [->|_]; [|done].
  apply Forall_cons in Hs as [Ha _]. congruence.
Qed.

(** X21: the names [transformType] makes hold no upper-case ASCII
    letter, and transforming a name again changes nothing: a metric name
    the importer has made is its own transform. *)
Theorem transformType_settles (type : string) :
  lowerOnly (Importer.transformType type)
  ∧ Importer.transformType (Importer.transformType type)
    = Importer.transformType type.
Proof.
  assert (lowerOnly (Importer.transformType type)) as Hlow
    by apply toLowerCase_lowerOnly.
  split; [done|].
  unfold Importer.transformType at 1.
  do 3 rewrite (dropPrefix_id _ _ (Importer.transformType type)) by done.
  by rewrite underscore_id, toLowerCase_id.
Qed.

(** ** The import script: [parseAttributes] *)

Lemma list_ascii_of_string_app (a b : string) :
  list_ascii_of_string (a +:+ b)
  = list_ascii_of_string a ++ list_ascii_of_string b.
Proof.
  induction a as [|c a IH]; [done|].
  change (String c a +:+ b) with (String c (a +:+ b)). simpl. by rewrite IH.
Qed.

Lemma append_cons a (s t : string) : String a s +:+ t = String a (s +:+ t).
Proof. reflexivity. Qed.

Lemma snoc_append (s t : string) c :
  Importer.snoc s c +:+ t = s +:+ String c t.
Proof.
  unfold Importer.snoc. induction s as [|a s IH]; [done|].
  by rewrite !append_cons, IH.
Qed.

Lemma append_empty (s : string) : s +:+ "" = s.
Proof. induction s as [|a s IH]; [done|by rewrite append_cons, IH]. Qed.

Lemma scan_key (l : list ascii) :
  ∀ acc rest attrs,
    Forall (λ c, Importer.isKeyChar c = true) l →
    Importer.scan (Importer.InKey acc) (l ++ "="%char :: rest) attrs
    = Importer.scan (Importer.AfterEq (acc +:+ string_of_list_ascii l)) rest attrs.
Proof.
  induction l as [|c l IH]; intros acc rest attrs Hl; simpl.
  - by rewrite append_empty.
  - apply Forall_cons in Hl as [-> Hl]. rewrite IH by done.
    by rewrite snoc_append.
Qed.

Lemma scan_value (l : list ascii) :
  ∀ key acc rest attrs,
    Forall (λ c, isChar c Importer.quote = false) l →
    Importer.scan (Importer.InValue key acc) (l ++ Importer.quote :: rest) attrs
    = Importer.scan Importer.Idle rest
        (if String.eqb key "__proto__" then attrs
         else <[key := acc +:+ string_of_list_ascii l]> attrs).
Proof.
  induction l as [|c l IH]; intros key acc rest attrs Hl; simpl.
  - rewrite append_empty. by destruct (String.eqb key "__proto__").
  - apply Forall_cons in Hl as [-> Hl]. rewrite IH by done.
    by rewrite snoc_append.
Qed.

Lemma scan_attribute (kv : string * string) rest attrs :
  wellFormed kv →
  Importer.scan Importer.Idle (list_ascii_of_string (attribute kv) ++ rest) attrs
  = Importer.scan Importer.Idle rest (<[kv.1 := kv.2]> attrs).
Proof.
  destruct kv as [k v]. intros (Hne & Hproto & Hk & Hv). simpl in *.
  unfold attribute. simpl.
  destruct k as [|c k]; [done|].
  rewrite !list_ascii_of_string_app. simpl.
  apply Forall_cons in Hk as [Hc Hk].
  rewrite Hc, <- !app_assoc. simpl.
  rewrite scan_key by done. simpl.
  rewrite list_ascii_of_string_app, <- app_assoc. simpl.
  rewrite scan_value by done.
  rewrite !string_of_list_ascii_of_string.
  change (String c "" +:+ k) with (String c k). change ("" +:+ v) with v.
  by apply String.eqb_neq in Hproto as ->.
Qed.

Lemma scan_attributes (kvs : list (string * string)) :
  ∀ rest attrs,
    Forall wellFormed kvs →
    Importer.scan Importer.Idle (list_ascii_of_string (attributes kvs) ++ rest) attrs
    = Importer.scan Importer.Idle rest (list_to_map (reverse kvs) ∪ attrs).
Proof.
  induction kvs as [|kv kvs IH]; intros rest attrs Hkvs.
  - simpl. by rewrite (left_id ∅ (∪)).
  - apply Forall_cons in Hkvs as [Hkv Hkvs].
    change (attributes (kv :: kvs)) with (attribute kv +:+ attributes kvs).
    rewrite list_ascii_of_string_app, <- app_assoc.
    rewrite scan_attribute, IH by done.
    rewrite reverse_cons, list_to_map_app. simpl.
    rewrite insert_empty, <- (assoc_L (∪)).
    by rewrite <- insert_union_singleton_l.
Qed.

Lemma scan_element (l : list ascii) :
  ∀ state, outside state →
    Forall (λ c, isChar c Importer.quote = false) l →
    ∃ state', outside state'
      ∧ ∀ rest attrs, Importer.scan state (l ++ rest) attrs
                      = Importer.scan state' rest attrs.
Proof.
  induction l as [|c l IH]; intros state Hstate Hl.
  - by exists state.
  - apply Forall_cons in Hl as [Hc Hl]. simpl.
    destruct state as [|key|key|key value]; [| | |done].
    + destruct (Importer.isKeyChar c);
        [destruct (IH (Importer.InKey (String c "")) I Hl) as (s' & ? & Hs')
        |destruct (IH Importer.Idle I Hl) as (s' & ? & Hs')];
        exists s'; (split; [done|]); intros; apply Hs'.
    + destruct (Importer.isKeyChar c);
        [destruct (IH (Importer.InKey (Importer.snoc key c)) I Hl) as (s' & ? & Hs')
        |destruct (isChar c "=");
         [destruct (IH (Importer.AfterEq key) I Hl) as (s' & ? & Hs')
         |destruct (IH Importer.Idle I Hl) as (s' & ? & Hs')]];
        exists s'; (split; [done|]); intros; apply Hs'.
    + rewrite Hc.
      destruct (Importer.isKeyChar c);
        [destruct (IH (Importer.InKey (String c "")) I Hl) as (s' & ? & Hs')
        |destruct (IH Importer.Idle I Hl) as (s' & ? & Hs')];
        exists s'; (split; [done|]); intros; apply Hs'.
Qed.

Lemma scan_blank state rest attrs :
  outside state →
  Importer.scan state (" "%char :: rest) attrs
  = Importer.scan Importer.Idle rest attrs.
Proof. by destruct state. Qed.

(** X22: a tag written with well-formed attributes (a non-empty key of
    word characters and colons other than [__proto__], a value without a
    double quote) is read back by [parseAttributes] as exactly these
    attributes; of two attributes with one key the later one is kept. *)
Theorem parseAttributes_reads_back (element : string)
    (kvs : list (string * string)) :
  quoteFree element → Forall wellFormed kvs →
  Importer.parseAttributes (tag element kvs)
  = (list_to_map (reverse kvs) : gmap string string).
Proof.
  intros Helement Hkvs. unfold Importer.parseAttributes, tag.
  rewrite !list_ascii_of_string_app, (app_assoc (list_ascii_of_string "<")).
  destruct (scan_element (list_ascii_of_string "<" ++ list_ascii_of_string element)
              Importer.Idle I)
    as (state & Hstate & Hscan).
  { apply Forall_app. split; [|done]. by repeat constructor. }
  rewrite Hscan. clear Hscan.
  destruct kvs as [|kv kvs].
  - simpl. by destruct state.
  - assert (∀ rest, list_ascii_of_string (attributes (kv :: kvs)) ++ rest
                    = " "%char :: tail (list_ascii_of_string (attributes (kv :: kvs))) ++ rest)
      as Hblank by done.
    rewrite Hblank, scan_blank by done.
    change (Importer.scan Importer.Idle
              (tail (list_ascii_of_string (attributes (kv :: kvs))) ++ ?r) ?a)
      with (Importer.scan Importer.Idle
              (list_ascii_of_string (attributes (kv :: kvs)) ++ r) a).
    rewrite scan_attributes by done. simpl.
    by rewrite (right_id ∅ (∪)).
Qed.

Lemma parseAttributes_reads_back_witness :
  Importer.parseAttributes
    (tag "Record" [("type", "HKQuantityTypeIdentifierStepCount");
                   ("value", "12"); ("unit", "count"); ("value", "30")])
  = <["value" := "30"]> (<["unit" := "count"]>
      (<["type" := "HKQuantityTypeIdentifierStepCount"]> ∅)).
Proof.
  etransitivity.
  - apply (parseAttributes_reads_back "Record");
      [by repeat constructor|].
    repeat (apply Forall_cons; split;
            [repeat split; try discriminate; by repeat constructor|]).
    apply Forall_nil_2.
  - apply map_eq. intros k. vm_compute list_to_map. reflexivity.
Defined.

(** ** The import script: posting in chunks *)

Lemma chunkLoop_concat {A} (dataPoints : list A) (size : nat) :
  (1 ≤ size)%nat →
  ∀ fuel i, (length dataPoints - i ≤ fuel)%nat →
    concat (Importer.chunkLoop fuel size i dataPoints) = drop i dataPoints.
Proof.
  intros Hsize. induction fuel as [|fuel IH]; intros i Hfuel; simpl.
  - symmetry. apply drop_ge. lia.
  - destruct (i <? length dataPoints)%nat eqn:Hi.
    + apply Nat.ltb_lt in Hi. simpl. rewrite IH by lia.
      unfold Importer.slice.
      replace (i + size - i)%nat with size by lia.
      rewrite <- (drop_drop dataPoints size i). apply take_drop.
    + apply Nat.ltb_ge in Hi. symmetry. by apply drop_ge.
Qed.

Lemma chunkLoop_sizes {A} (dataPoints : list A) (size : nat) :
  (1 ≤ size)%nat →
  ∀ fuel i,
    Forall (λ chunk, (1 ≤ length chunk ≤ size)%nat)
           (Importer.chunkLoop fuel size i dataPoints).
Proof.
  intros Hsize. induction fuel as [|fuel IH]; intros i; simpl; [done|].
  destruct (i <? length dataPoints)%nat eqn:Hi; [|done].
  apply Nat.ltb_lt in Hi. apply Forall_cons. split; [|apply IH].
  unfold Importer.slice. rewrite length_take, length_drop. lia.
Qed.

(** X23: the requests made for a metric carry its data points in
    order, none lost and none twice; each request carries the metric's
    name and units, no workouts, and between 1 and 1000 data points. *)
Theorem metricPayloads_partition (metric : Importer.MetricData) :
  flat_map pointsOf (Importer.metricPayloads metric) = Importer.data metric
  ∧ Forall (λ payload,
              Importer.p_workouts payload = []
              ∧ ∃ chunk,
                  Importer.p_metrics payload
                  = [{| Importer.name := Importer.name metric;
                        Importer.md_units := Importer.md_units metric;
                        Importer.data := chunk |}]
                  ∧ (1 ≤ length chunk ≤ 1000)%nat)
           (Importer.metricPayloads metric).
Proof.
  unfold Importer.metricPayloads, Importer.chunks. split.
  - rewrite <- (drop_0 (Importer.data metric)) at 3.
    rewrite <- (chunkLoop_concat (Importer.data metric) Importer.chunkSize)
      with (fuel := length (Importer.data metric)) (i := 0%nat)
      by (unfold Importer.chunkSize; lia).
    generalize (Importer.chunkLoop (length (Importer.data metric))
                  Importer.chunkSize 0 (Importer.data metric)).
    intros l. induction l as [|chunk l IH]; [done|].
    simpl. rewrite IH. unfold pointsOf. simpl. by rewrite app_nil_r.
  - apply Forall_map.
    eapply Forall_impl;
      [apply (chunkLoop_sizes (Importer.data metric) Importer.chunkSize);
       unfold Importer.chunkSize; lia|].
    intros chunk Hchunk. simpl. split; [done|]. by exists chunk.
Qed.

Lemma firstRefused_bounds post :
  ∀ count n k, firstRefused post n count = Some k →
               (n ≤ k < n + count)%nat ∧ post k = false.
Proof.
  induction count as [|count IH]; intros n k; simpl; [done|].
  destruct (post n) eqn:Hn.
  - intros [? ?]%IH. split; [lia|done].
  - intros [= <-]. split; [lia|done].
Qed.

Lemma firstRefused_add post :
  ∀ a n b, firstRefused post n (a + b)
           = match firstRefused post n a with
             | Some k => Some k
             | None => firstRefused post (n + a) b
             end.
Proof.
  induction a as [|a IH]; intros n b; simpl.
  - by rewrite Nat.add_0_r.
  - destruct (post n); [|done]. rewrite IH. by rewrite Nat.add_succ_r.
Qed.

Lemma postEach_firstRefused post (payloads : list Importer.Payload) :
  ∀ n, Importer.postEach post n payloads
       = match firstRefused post n (length payloads) with
         | Some k => (take (S (k - n)) payloads, false)
         | None => (payloads, true)
         end.
Proof.
  induction payloads as [|payload payloads IH]; intros n; simpl; [done|].
  destruct (post n) eqn:Hn.
  - rewrite IH.
    destruct (firstRefused post (S n) (length payloads)) as [k|] eqn:Hk; [|done].
    apply firstRefused_bounds in Hk as [? _].
    by replace (k - n)%nat with (S (k - S n)) by lia.
  - by rewrite Nat.sub_diag.
Qed.

(** X24: [main] sends the requests of an import one after the other,
    up to and with the first one that is refused, and then exits with
    code 1; when none is refused it sends them all and exits with code 0.
    Without a key in the environment it sends nothing and exits with
    code 1. *)
Theorem main_stops_at_first_refusal (env : gmap string string)
    (parsed : list Importer.MetricData * list Importer.WorkoutData)
    (post : nat → bool) :
  Importer.main env parsed post
  = if Importer.present (env !! "API_KEY")
       || Importer.present (env !! "WRITE_TOKEN")
    then match firstRefused post 0 (length (requests parsed)) with
         | Some k => (take (S k) (requests parsed), 1)
         | None => (requests parsed, 0)
         end
    else ([], 1).
Proof.
  destruct parsed as [metrics workouts]. unfold Importer.main, requests.
  destruct (_ || _); [|done]. simpl.
  rewrite postEach_firstRefused, length_app, firstRefused_add.
  destruct (firstRefused post 0 (length (flat_map Importer.metricPayloads metrics)))
    as [k|] eqn:Hk.
  - apply firstRefused_bounds in Hk as [? _].
    rewrite Nat.sub_0_r. by rewrite take_app_le by lia.
  - simpl. destruct (0 <? length workouts)%nat; simpl.
    + destruct (post _); [done|].
      by rewrite take_ge by (rewrite length_app; simpl; lia).
    + by rewrite app_nil_r.
Qed.

(** ** The import script: [parseExport] *)

Lemma keyOnly_snoc key c :
  keyOnly key → Importer.isKeyChar c = true → keyOnly (Importer.snoc key c).
Proof.
  unfold keyOnly, Importer.snoc. intros Hkey Hc.
  rewrite list_ascii_of_string_app. apply Forall_app. split; [done|].
  by repeat constructor.
Qed.

Lemma scan_keys (l : list ascii) :
  ∀ state attrs,
    keyed state → map_Forall (λ k _, keyOnly k) attrs →
    map_Forall (λ k _, keyOnly k) (Importer.scan state l attrs).
Proof.
  induction l as [|c l IH]; intros state attrs Hstate Hattrs; [done|].
  assert (∀ c, Importer.isKeyChar c = true → keyOnly (String c "")) as Hone
    by (intros; by repeat constructor).
  destruct state as [|key|key|key value]; simpl in *.
  - destruct (Importer.isKeyChar c) eqn:Hc; apply IH; simpl; auto.
  - destruct (Importer.isKeyChar c) eqn:Hc;
      [apply IH; simpl; auto using keyOnly_snoc|].
    destruct (isChar c "="); apply IH; simpl; auto.
  - destruct (isChar c Importer.quote); [apply IH; simpl; auto|].
    destruct (Importer.isKeyChar c) eqn:Hc; apply IH; simpl; auto.
  - destruct (isChar c Importer.quote); [|apply IH; simpl; auto].
    destruct (String.eqb key "__proto__"); apply IH; simpl; auto.
    by apply map_Forall_insert_2.
Qed.

Lemma parseAttributes_keys (tag key : string) :
  is_Some (Importer.parseAttributes tag !! key) → keyOnly key.
Proof.
  intros [value Hkey].
  by apply (scan_keys (list_ascii_of_string tag) Importer.Idle ∅ I
              (map_Forall_empty _)) in Hkey.
Qed.

Lemma parseAttributes_dotted (tag key : string) :
  "."%char ∈ list_ascii_of_string key →
  Importer.parseAttributes tag !! key = None.
Proof.
  intros Hdot. apply eq_None_not_Some. intros Hkey%parseAttributes_keys.
  unfold keyOnly in Hkey. rewrite Forall_forall in Hkey.
  by apply Hkey in Hdot.
Qed.

Lemma measurement_measured (tag key unitKey end_ : string) :
  "."%char ∈ list_ascii_of_string unitKey →
  measured end_ (Importer.measurement (Importer.parseAttributes tag) key unitKey end_).
Proof.
  intros Hdot q. unfold Importer.measurement.
  rewrite (parseAttributes_dotted tag unitKey Hdot).
  destruct (Importer.present _); [|done].
  destruct (negb _) eqn:Hval; [|done].
  intros [= <-]. simpl. by apply negb_true_iff in Hval.
Qed.

Lemma present_default (x : option string) :
  Importer.present x = true → default "" x ≠ "".
Proof.
  destruct x as [s|]; [|done]. simpl. intros Hs%negb_true_iff.
  by apply String.eqb_neq.
Qed.

Lemma pushMetric_names name units metric metricsMap k :
  In k (map fst (Importer.pushMetric name units metric metricsMap)) →
  k = name ∨ In k (map fst metricsMap).
Proof.
  induction metricsMap as [|[k' entry] rest IH]; simpl.
  - intros [<-|[]]. by left.
  - destruct (String.eqb k' name); simpl; [by right|].
    intros [<-|Hk]; [by right; left|].
    destruct (IH Hk); [by left|by right; right].
Qed.

Lemma pushMetric_NoDup name units metric metricsMap :
  NoDup (map fst metricsMap) →
  NoDup (map fst (Importer.pushMetric name units metric metricsMap)).
Proof.
  induction metricsMap as [|[k entry] rest IH]; simpl.
  - intros _. apply NoDup_singleton.
  - intros [Hk Hrest]%NoDup_cons.
    destruct (String.eqb k name) eqn:Hname; simpl.
    + apply NoDup_cons. by rewrite list_elem_of_In in *.
    + apply NoDup_cons. split; [|by apply IH].
      rewrite list_elem_of_In in *.
      intros [->|?]%pushMetric_names; [|done].
      by rewrite String.eqb_refl in Hname.
Qed.

Lemma pushMetric_entries name units metric metricsMap :
  lowerOnly name → pointOK metric → Importer.units metric = units →
  Forall entryOK metricsMap →
  Forall entryOK (Importer.pushMetric name units metric metricsMap).
Proof.
  intros Hname Hmetric Hunits.
  induction metricsMap as [|[k entry] rest IH]; simpl.
  - intros _. apply Forall_singleton. repeat split; simpl; [done| |].
    + by exists metric, [].
    + by apply Forall_singleton.
  - intros [Hentry Hrest]%Forall_cons.
    destruct (String.eqb k name); apply Forall_cons; (split; [|auto]); [|done].
    destruct Hentry as (Hk & Hlow & (p & ps & Hdata & Hp) & Hpoints).
    simpl in *. repeat split; simpl; [done|done| |].
    + exists p, (ps ++ [metric]). by rewrite Hdata.
    + apply Forall_app. split; [done|by apply Forall_singleton].
Qed.

Section parsing.
Variable Date_parse : string → option Z.

Lemma parseLine_metrics line st st' :
  Importer.parseLine Date_parse line st = inr st' →
  NoDup (map fst (Importer.metricsMap st))
  ∧ Forall entryOK (Importer.metricsMap st) →
  NoDup (map fst (Importer.metricsMap st'))
  ∧ Forall entryOK (Importer.metricsMap st').
Proof.
  unfold Importer.parseLine. fold (trimmed line).
  destruct (String.prefix "<Record" (trimmed line)).
  - destruct (_ !! "type") as [type|]; [|done].
    destruct (negb _ && _) eqn:Hkept; [|by intros [= <-]].
    apply andb_true_iff in Hkept as [Hqty%negb_true_iff Hdate%present_default].
    intros [= <-] [? ?]. simpl. split.
    + by apply pushMetric_NoDup.
    + apply pushMetric_entries; try done.
      apply toLowerCase_lowerOnly.
  - destruct (String.prefix "<Workout" (trimmed line)); [|by intros [= <-]].
    destruct (_ || _); by intros [= <-].
Qed.

Lemma append_not_empty (a b : string) : a +:+ "_" +:+ b ≠ "".
Proof. by destruct a. Qed.

Lemma parseLine_workouts line st st' :
  Importer.parseLine Date_parse line st = inr st' →
  Forall (workoutOK Date_parse) (Importer.workouts st) →
  Forall (workoutOK Date_parse) (Importer.workouts st').
Proof.
  unfold Importer.parseLine. fold (trimmed line).
  destruct (String.prefix "<Record" (trimmed line)).
  - destruct (_ !! "type") as [type|]; [|done].
    destruct (negb _ && _); by intros [= <-].
  - destruct (String.prefix "<Workout" (trimmed line)); [|by intros [= <-]].
    destruct (_ || _) eqn:Hskip; [by intros [= <-]|].
    apply orb_false_iff in Hskip as [Hskip Hend%negb_false_iff].
    apply orb_false_iff in Hskip as [Hskip Hstart%negb_false_iff].
    apply orb_false_iff in Hskip as [_ _].
    apply bool_decide_eq_true in Hstart, Hend.
    intros [= <-] Hworkouts. simpl.
    apply Forall_app. split; [done|]. apply Forall_singleton.
    refine (conj _ (conj _ (conj _ (conj _ _)))); simpl; try done.
    + destruct (Importer.present (_ !! "uuid")) eqn:Huuid.
      * by apply present_default.
      * apply append_not_empty.
    + apply measurement_measured. by repeat constructor.
    + apply measurement_measured. by repeat constructor.
Qed.

Lemma parseLines_metrics lines :
  ∀ st st',
    Importer.parseLines Date_parse lines st = inr st' →
    NoDup (map fst (Importer.metricsMap st))
    ∧ Forall entryOK (Importer.metricsMap st) →
    NoDup (map fst (Importer.metricsMap st'))
    ∧ Forall entryOK (Importer.metricsMap st').
Proof.
  induction lines as [|line lines IH]; intros st st'; simpl.
  - by intros [= <-].
  - destruct (Importer.parseLine Date_parse line st) as [|st1] eqn:Hline; [done|].
    intros Hlines Hst. apply (IH _ _ Hlines).
    by apply (parseLine_metrics _ _ _ Hline).
Qed.

Lemma parseLines_workouts lines :
  ∀ st st',
    Importer.parseLines Date_parse lines st = inr st' →
    Forall (workoutOK Date_parse) (Importer.workouts st) →
    Forall (workoutOK Date_parse) (Importer.workouts st').
Proof.
  induction lines as [|line lines IH]; intros st st'; simpl.
  - by intros [= <-].
  - destruct (Importer.parseLine Date_parse line st) as [|st1] eqn:Hline; [done|].
    intros Hlines Hst. apply (IH _ _ Hlines).
    by apply (parseLine_workouts _ _ _ Hline).
Qed.

Lemma entries_names (metricsMap : list (string * Importer.MetricData)) :
  Forall entryOK metricsMap →
  map Importer.name (map snd metricsMap) = map fst metricsMap.
Proof.
  induction 1 as [|[k entry] rest [Hk _] _ IH]; simpl in *; [done|].
  by rewrite Hk, IH.
Qed.

(** X25: the metrics [parseExport] returns have pairwise different
    names, without upper-case letters; each has at least one data point
    and the units of its first one, and every data point has a quantity
    that is a number and a date that is not empty. *)
Theorem parseExport_metrics (lines : list string)
    (metrics : list Importer.MetricData)
    (workouts : list Importer.WorkoutData) :
  Importer.parseExport Date_parse lines = inr (metrics, workouts) →
  NoDup (map Importer.name metrics) ∧ Forall metricOK metrics.
Proof.
  unfold Importer.parseExport.
  destruct (Importer.parseLines _ _ _) as [|st] eqn:Hlines; [done|].
  intros [= <- _].
  apply parseLines_metrics in Hlines as [Hnames Hentries].
  - rewrite entries_names by done. split; [done|].
    apply Forall_forall. intros metric Hmetric%list_elem_of_In.
    apply in_map_iff in Hmetric as (entry & <- & Hentry%list_elem_of_In).
    rewrite Forall_forall in Hentries. by apply Hentries in Hentry as [_ ?].
  - simpl. split; [apply NoDup_nil_2|apply Forall_nil_2].
Qed.

(** X26: the workouts [parseExport] returns have a start and an end
    that [Date.parse] reads and an id that is not empty; a distance or
    an energy of a workout is a number dated at the end of the workout,
    and its units are always empty: the key under which they are looked
    up holds a dot, which no key of [parseAttributes] does. *)
Theorem parseExport_workouts (lines : list string)
    (metrics : list Importer.MetricData)
    (workouts : list Importer.WorkoutData) :
  Importer.parseExport Date_parse lines = inr (metrics, workouts) →
  Forall (workoutOK Date_parse) workouts.
Proof.
  unfold Importer.parseExport.
  destruct (Importer.parseLines _ _ _) as [|st] eqn:Hlines; [done|].
  intros [= _ <-].
  apply parseLines_workouts in Hlines; [done|]. apply Forall_nil_2.
Qed.




End parsing.

Lemma parseExport_metrics_witness :
  ∃ metrics workouts,
    Importer.parseExport (Date_parse cet) export = inr (metrics, workouts)
    ∧ map Importer.name metrics = ["step_count"; "heart_rate"]
    ∧ NoDup (map Importer.name metrics) ∧ Forall metricOK metrics.
Proof.
  eexists _, _. split; [vm_compute; reflexivity|]. split; [reflexivity|].
  eapply (parseExport_metrics (Date_parse cet) export). vm_compute. reflexivity.
Defined.

Lemma parseExport_workouts_witness :
  ∃ metrics workouts,
    Importer.parseExport (Date_parse cet) export = inr (metrics, workouts)
    ∧ length workouts = 1%nat
    ∧ Forall (workoutOK (Date_parse cet)) workouts.
Proof.
  eexists _, _. split; [vm_compute; reflexivity|]. split; [reflexivity|].
  eapply (parseExport_workouts (Date_parse cet) export). vm_compute. reflexivity.
Defined.
